(** * Bear: the intercept session environment and the citnames pipeline

    A shallow embedding of
      - source/intercept/source/collect/SessionLibrary.cc
      - source/citnames/source/Application.cc
    and the properties of the specification that concern them.

    Conventions.  A [std::map<std::string, std::string>] and a protobuf
    [Map<string, string>] are [gmap string string]; a [std::list] is a
    [list]; a [rust::Result<T>] is [Result T] whose error carries the
    message of the [std::runtime_error]; a [std::filesystem::path] is its
    native string.  Code that mutates an object passed by reference returns
    the new value of that object next to its result.  Calls to the logger
    ([spdlog]) have no effect on any result and are left out. *)

From stdpp Require Import base option list gmap strings.
From Stdlib Require Import Ascii Sorting.Sorted.

Local Open Scope string_scope.
Local Open Scope list_scope.
Local Open Scope stdpp_scope.

(** ** [rust::Result] and its combinators *)

Definition Error := string.

Inductive Result (T : Type) : Type :=
| Ok (t : T)
| Err (e : Error).

Arguments Ok {T} t.
Arguments Err {T} e.

Module rust.

Definition is_ok {T} (r : Result T) : bool :=
  match r with Ok _ => true | Err _ => false end.

Definition map {T U} (f : T -> U) (r : Result T) : Result U :=
  match r with Ok t => Ok (f t) | Err e => Err e end.

Definition and_then {T U} (f : T -> Result U) (r : Result T) : Result U :=
  match r with Ok t => f t | Err e => Err e end.

Definition unwrap_or {T} (r : Result T) (d : T) : T :=
  match r with Ok t => t | Err _ => d end.

(** [merge] pairs two results; the first error met is the one reported. *)
Definition merge {T U} (a : Result T) (b : Result U) : Result (T * U) :=
  and_then (fun x => map (fun y => (x, y)) b) a.

End rust.

(** ** Intercept: the library preload session *)

Module ic.

(** The reserved variable names [el::env::KEY_*], declared in
    [report/libexec/Environments.h]; the functions below only use that
    they are strings. *)
Class Environments := {
  KEY_VERBOSE : string;
  KEY_DESTINATION : string;
  KEY_REPORTER : string
}.

(** The static helper of the [Session] base class, declared in
    [collect/Session.h]. *)
Class SessionBase := {
  keep_front_in_path : string -> string -> string
}.

Definition GLIBC_PRELOAD_KEY : string := "LD_PRELOAD".

(** The members of [LibraryPreloadSession]; [session_locator_] is the
    value [*session_locator_] reads from the base class. *)
Record LibraryPreloadSession := {
  verbose_ : bool;
  library_ : string;
  executor_ : string;
  session_locator_ : string
}.

(** The [rpc::Execution] message. *)
Record Execution := {
  executable : string;
  arguments : list string;
  working_dir : string;
  environment : gmap string string
}.

(** [m[k]] read as a value: a missing key is created with the empty
    string, which is what the expression then yields. *)
Definition subscript (m : gmap string string) (k : string) : string :=
  default "" (m !! k).

Section session.
Context `{Environments} `{SessionBase}.

(** [LibraryPreloadSession::update(const std::map&)]. *)
Definition update (s : LibraryPreloadSession) (env : gmap string string)
  : gmap string string :=
  let copy := env in
  let copy := if verbose_ s then <[KEY_VERBOSE := "true"]> copy else copy in
  let copy := <[KEY_DESTINATION := session_locator_ s]> copy in
  let copy := <[KEY_REPORTER := executor_ s]> copy in
  let copy := <[GLIBC_PRELOAD_KEY :=
                  keep_front_in_path (library_ s) (subscript copy GLIBC_PRELOAD_KEY)]> copy in
  copy.

(** [LibraryPreloadSession::update(google::protobuf::Map&)]: the same
    assignments, made in place on the caller's map. *)
Definition update_mutable (s : LibraryPreloadSession) (env : gmap string string)
  : gmap string string :=
  let env := if verbose_ s then <[KEY_VERBOSE := "true"]> env else env in
  let env := <[KEY_DESTINATION := session_locator_ s]> env in
  let env := <[KEY_REPORTER := executor_ s]> env in
  <[GLIBC_PRELOAD_KEY :=
      keep_front_in_path (library_ s) (subscript env GLIBC_PRELOAD_KEY)]> env.

(** [LibraryPreloadSession::resolve]. *)
Definition resolve (s : LibraryPreloadSession) (execution : Execution)
  : Result Execution :=
  let candidate := execution in
  let candidate :=
    {| executable := executable candidate;
       arguments := arguments candidate;
       working_dir := working_dir candidate;
       environment := update_mutable s (environment candidate) |} in
  Ok candidate.

End session.

(** A reference instance, used to run the model on concrete inputs: the
    names Bear gives the reserved variables, and a colon-separated search
    list in which the library comes first and is not repeated. *)
Definition bear_environments : Environments := {|
  KEY_VERBOSE := "INTERCEPT_VERBOSE";
  KEY_DESTINATION := "INTERCEPT_REPORT_DESTINATION";
  KEY_REPORTER := "INTERCEPT_REPORT_COMMAND"
|}.

Fixpoint split_on (sep : ascii) (acc : string) (s : string) : list string :=
  match s with
  | EmptyString => [String.rev acc]
  | String c rest =>
      if Ascii.eqb c sep then String.rev acc :: split_on sep "" rest
      else split_on sep (String c acc) rest
  end.

Definition paths_split (paths : string) : list string :=
  filter (fun p => p ≠ "") (split_on ":"%char "" paths).

Fixpoint paths_join (l : list string) : string :=
  match l with
  | [] => ""
  | [p] => p
  | p :: rest => p +:+ ":" +:+ paths_join rest
  end.

Definition bear_session_base : SessionBase := {|
  keep_front_in_path path paths :=
    paths_join (path :: filter (fun current => current ≠ path) (paths_split paths))
|}.

Definition verbose_session : LibraryPreloadSession := {|
  verbose_ := true;
  library_ := "/usr/lib/bear/libexec.so";
  executor_ := "/usr/lib/bear/wrapper";
  session_locator_ := "dns:///localhost:4711"
|}.

Definition quiet_session : LibraryPreloadSession := {|
  verbose_ := false;
  library_ := "/usr/lib/bear/libexec.so";
  executor_ := "/usr/lib/bear/wrapper";
  session_locator_ := "dns:///localhost:4711"
|}.

Definition make_execution : Execution := {|
  executable := "/usr/bin/make";
  arguments := ["make"; "all"];
  working_dir := "/proj";
  environment := {[ "HOME" := "/home/u"; "LD_PRELOAD" := "/opt/a.so" ]}
|}.

(** *** Creating a session and supervising the build *)

(** [flags::Arguments] as intercept reads it, with the flag names
    [flags::VERBOSE], [ic::LIBRARY] and [ic::WRAPPER] of
    [intercept/Flags.h]. *)
Class Flags := {
  flags_Arguments : Type;
  as_string : flags_Arguments -> string -> Result string;
  as_bool : flags_Arguments -> string -> Result bool;
  flags_VERBOSE : string;
  ic_LIBRARY : string;
  ic_WRAPPER : string
}.

(** The flag names of the wrapper, [wr::DESTINATION], [wr::VERBOSE],
    [wr::EXECUTE] and [wr::COMMAND] of [report/wrapper/Flags.h]. *)
Class WrapperFlags := {
  wr_DESTINATION : string;
  wr_VERBOSE : string;
  wr_EXECUTE : string;
  wr_COMMAND : string
}.

(** [sys::Process::Builder] of [libsys/Process.h], as [supervise] uses
    it. *)
Class ProcessBuilder := {
  Builder : Type;
  Builder_new : string -> Builder;
  add_argument : Builder -> string -> Builder;
  add_arguments : Builder -> list string -> Builder;
  set_environment : Builder -> gmap string string -> Builder
}.

(** The constructor of [LibraryPreloadSession]; the last argument is the
    locator the [Session] base class is given once the collector runs. *)
Definition LibraryPreloadSession_new
    (verbose : bool) (library executor : string) (session_locator : string)
  : LibraryPreloadSession :=
  {| verbose_ := verbose;
     library_ := library;
     executor_ := executor;
     session_locator_ := session_locator |}.

(** [LibraryPreloadSession::from]: the session, still to be given its
    locator. *)
Definition from `{Flags} (args : flags_Arguments)
  : Result (string -> LibraryPreloadSession) :=
  let verbose := rust.unwrap_or (as_bool args flags_VERBOSE) false in
  let library := as_string args ic_LIBRARY in
  let wrapper := as_string args ic_WRAPPER in
  rust.map
    (fun tuple : string * string =>
       let '(library, wrapper) := tuple in
       LibraryPreloadSession_new verbose library wrapper)
    (rust.merge library wrapper).

(** [LibraryPreloadSession::supervise]; [ic::Execution] has the fields
    of the message. *)
Definition supervise `{Environments} `{SessionBase} `{WrapperFlags}
    `{ProcessBuilder} (s : LibraryPreloadSession) (execution : Execution)
  : Builder :=
  let builder := Builder_new (executor_ s) in
  let builder := add_argument builder (executor_ s) in
  let builder := add_argument builder wr_DESTINATION in
  let builder := add_argument builder (session_locator_ s) in
  let builder := if verbose_ s then add_argument builder wr_VERBOSE else builder in
  let builder := add_argument builder wr_EXECUTE in
  let builder := add_argument builder (executable execution) in
  let builder := add_argument builder wr_COMMAND in
  let builder := add_arguments builder (arguments execution) in
  set_environment builder (update s (environment execution)).

(** A builder that keeps what it is given, to run [supervise]. *)
Record ListBuilder := {
  program : string;
  parameters : list string;
  builder_environment : gmap string string
}.

Definition list_builder : ProcessBuilder := {|
  Builder := ListBuilder;
  Builder_new p :=
    {| program := p; parameters := []; builder_environment := ∅ |};
  add_argument b a :=
    {| program := program b; parameters := parameters b ++ [a];
       builder_environment := builder_environment b |};
  add_arguments b l :=
    {| program := program b; parameters := parameters b ++ l;
       builder_environment := builder_environment b |};
  set_environment b env :=
    {| program := program b; parameters := parameters b;
       builder_environment := env |}
|}.

Definition bear_wrapper_flags : WrapperFlags := {|
  wr_DESTINATION := "--destination";
  wr_VERBOSE := "--verbose";
  wr_EXECUTE := "--execute";
  wr_COMMAND := "--"
|}.

Definition flag_value (args : gmap string (list string)) (key : string)
  : Result string :=
  match args !! key with
  | Some [value] => Ok value
  | _ => Err ("no single value for " +:+ key)
  end.

Definition flag_given (args : gmap string (list string)) (key : string)
  : Result bool :=
  Ok (bool_decide (is_Some (args !! key))).

Definition bear_flags : Flags := {|
  flags_Arguments := gmap string (list string);
  as_string := flag_value;
  as_bool := flag_given;
  flags_VERBOSE := "--verbose";
  ic_LIBRARY := "--library";
  ic_WRAPPER := "--wrapper"
|}.

Definition intercept_flags : gmap string (list string) :=
  {[ "--library" := ["/usr/lib/bear/libexec.so"];
     "--wrapper" := ["/usr/lib/bear/wrapper"] ]}.

Definition gcc_execution : Execution := {|
  executable := "/usr/bin/gcc";
  arguments := ["gcc"; "-c"; "a.c"];
  working_dir := "/proj";
  environment := {[ "HOME" := "/home/u" ]}
|}.

End ic.

(** ** [std::filesystem::path] on a POSIX host *)

Module fs.

Abbreviation path := string (only parsing).

(** A path is absolute when it has a root directory. *)
Definition is_absolute (p : path) : bool :=
  match p with
  | String "/" _ => true
  | _ => false
  end.

Fixpoint ends_with_separator (p : path) : bool :=
  match p with
  | EmptyString => false
  | String c EmptyString => Ascii.eqb c "/"
  | String _ rest => ends_with_separator rest
  end.

(** A path has a filename when it is not empty and does not end in a
    separator. *)
Definition has_filename (p : path) : bool :=
  match p with
  | EmptyString => false
  | _ => negb (ends_with_separator p)
  end.

(** [operator/]: an absolute right operand replaces the left one;
    otherwise a separator is added after a filename and the operand
    appended. *)
Definition append (root p : path) : path :=
  if is_absolute p then p
  else if has_filename root then root +:+ "/" +:+ p
  else root +:+ p.

(** [operator==] on paths compares them element by element; it is kept
    as an interface. *)
Class Compare := {
  path_eqb : path -> path -> bool
}.

End fs.

(** ** Citnames: configuration, arguments and entries *)

Module cs.
Import fs.

Record CompilerWrapper := {
  executable : path;
  flags_to_add : list string;
  flags_to_remove : list string
}.

Record Compilation := {
  compilers_to_recognize : list CompilerWrapper;
  compilers_to_exclude : list path
}.

Record Content := {
  include_only_existing_source : bool;
  paths_to_include : list path;
  paths_to_exclude : list path
}.

Record Format := {
  command_as_array : bool;
  drop_output_field : bool
}.

Record Output := {
  format : Format;
  content : Content
}.

Record Configuration := {
  output : Output;
  compilation : Compilation
}.

(** [cs::Arguments]. *)
Module Arguments.
Record t := {
  input : path;
  output : path;
  append : bool
}.
End Arguments.

(** [cs::Entry]: one element of the compilation database. *)
Module Entry.
Record t := {
  file : path;
  directory : path;
  output : option path;
  arguments : list string
}.
End Entry.

Record Command := {
  arguments_ : Arguments.t;
  configuration_ : Configuration
}.

Definition EXIT_SUCCESS : Z := 0.

(** The flag names of [cmd::citnames], as the command line has them. *)
Definition FLAG_INPUT : string := "--input".
Definition FLAG_OUTPUT : string := "--output".
Definition FLAG_CONFIG : string := "--config".
Definition FLAG_APPEND : string := "--append".
Definition FLAG_RUN_CHECKS : string := "--run-checks".

(** *** The collaborators of [Application.cc]

    The host: the state of the file system and of the process, which
    [fs::exists] and [sys::path::get_cwd] read. *)
Class Host := {
  World : Type;
  fs_exists : path -> World -> bool;
  get_cwd : World -> Result path
}.

(** [flags::Arguments], the configuration serializer, the default
    configuration and the rendering of a path by [fmt::format]. *)
Class Frontend `{Host} := {
  flags_Arguments : Type;
  as_string : flags_Arguments -> string -> Result string;
  as_bool : flags_Arguments -> string -> Result bool;
  ConfigurationSerializer_from_json : path -> World -> Result Configuration;
  Configuration_default : Configuration;
  fmt_path : path -> string
}.

(** [cs::semantic]: [Build::recognize], the [dynamic_cast] to
    [CompilerCall] and [CompilerCall::into_entries]. *)
Class Recognizer := {
  Event : Type;
  Semantic : Type;
  CompilerCall : Type;
  recognize : Compilation -> Event -> Result Semantic;
  as_compiler_call : Semantic -> option CompilerCall;
  into_entries : CompilerCall -> list Entry.t
}.

(** [db::EventsDatabaseReader::from] with the sequence its iterator
    yields, and [cs::CompilationDatabase]: [from_json] extends the list it
    is given, [to_json] writes a file. *)
Class Storage `{Host} `{Recognizer} := {
  EventsDatabaseReader_from : path -> World -> Result (list (Result Event));
  from_json : Format -> Content -> path -> list Entry.t -> World
              -> Result nat * list Entry.t;
  to_json : Format -> Content -> path -> list Entry.t -> World
            -> Result nat * World
}.

(** *** The functions of [Application.cc] *)

Definition to_abspath (paths : list path) (root : path) : list path :=
  fold_left
    (fun results path =>
       let result := if is_absolute path then path else append root path in
       results ++ [result])
    paths [].

Section application.
Context `{Compare} `{Frontend} `{Recognizer} `{!Storage}.

Definition update_content (content : Content) (run_checks : bool) (w : World)
  : Content :=
  if run_checks then
    match get_cwd w with
    | Ok root =>
        {| include_only_existing_source := run_checks;
           paths_to_include := to_abspath (paths_to_include content) root;
           paths_to_exclude := to_abspath (paths_to_exclude content) root |}
    | Err _ => content
    end
  else content.

Definition update_compilers_to_recognize
    (wrappers : list CompilerWrapper) (compilers : list path)
  : list CompilerWrapper :=
  fold_left
    (fun wrappers compiler =>
       let already_in_wrappers :=
         existsb (fun wrapper => path_eqb (executable wrapper) compiler) wrappers in
       if negb already_in_wrappers then
         wrappers ++ [{| executable := compiler;
                         flags_to_add := [];
                         flags_to_remove := [] |}]
       else wrappers)
    compilers wrappers.

Definition is_exists (path : path) (w : World) : bool := fs_exists path w.

Definition into_arguments (args : flags_Arguments) (w : World)
  : Result Arguments.t :=
  let input := as_string args FLAG_INPUT in
  let output := as_string args FLAG_OUTPUT in
  let append := rust.unwrap_or (as_bool args FLAG_APPEND) false in
  rust.and_then
    (fun arguments =>
       if negb (is_exists (Arguments.input arguments) w) then
         Err ("Missing input file: " +:+ fmt_path (Arguments.input arguments))
       else
         Ok {| Arguments.input := Arguments.input arguments;
               Arguments.output := Arguments.output arguments;
               Arguments.append :=
                 Arguments.append arguments
                 && is_exists (Arguments.output arguments) w |})
    (rust.map
       (fun tuple : string * string =>
          let '(input, output) := tuple in
          {| Arguments.input := input;
             Arguments.output := output;
             Arguments.append := append |})
       (rust.merge input output)).

Definition compilers (environment : gmap string string) : list path :=
  let result := [] in
  let result :=
    match environment !! "CC" with Some v => result ++ [v] | None => result end in
  let result :=
    match environment !! "CXX" with Some v => result ++ [v] | None => result end in
  let result :=
    match environment !! "FC" with Some v => result ++ [v] | None => result end in
  result.

(** The local [config] of [into_configuration]: the configuration file
    when the flag names one, the default configuration otherwise. *)
Definition loaded_configuration (args : flags_Arguments) (w : World)
  : Result Configuration :=
  let config_arg := as_string args FLAG_CONFIG in
  if rust.is_ok config_arg then
    rust.and_then
      (fun candidate => ConfigurationSerializer_from_json candidate w)
      config_arg
  else Ok Configuration_default.

(** The local [run_checks] of [into_configuration]. *)
Definition effective_run_checks (args : flags_Arguments) (config : Configuration)
  : bool :=
  rust.unwrap_or (as_bool args FLAG_RUN_CHECKS)
    (include_only_existing_source (content (output config))).

Definition into_configuration
    (args : flags_Arguments) (environment : gmap string string) (w : World)
  : Result Configuration :=
  let config := loaded_configuration args w in
  rust.map
    (fun config =>
       let env_compilers := compilers environment in
       {| output := output config;
          compilation :=
            {| compilers_to_recognize :=
                 update_compilers_to_recognize
                   (compilers_to_recognize (compilation config)) env_compilers;
               compilers_to_exclude :=
                 compilers_to_exclude (compilation config) |} |})
    (rust.map
       (fun config =>
          let run_checks := effective_run_checks args config in
          {| output :=
               {| format := format (output config);
                  content := update_content (content (output config)) run_checks w |};
             compilation := compilation config |})
       config).

(** One turn of the loop of [transform]: the state is [count] and the
    list behind the [output] reference. *)
Definition transform_step (build : Compilation)
    (state : nat * list Entry.t) (it : Result Event) : nat * list Entry.t :=
  let '(count, output) := state in
  match rust.and_then (recognize build) it with
  | Ok semantic =>
      match as_compiler_call semantic with
      | Some candidate =>
          let entries := into_entries candidate in
          (count + length entries, output ++ entries)
      | None => (count, output)
      end
  | Err _ => (count, output)
  end.

Definition transform (build : Compilation) (events : list (Result Event))
    (output : list Entry.t) : nat * list Entry.t :=
  fold_left (transform_step build) events (0, output).

(** [cs::Command::execute]: the exit code, and the world the run leaves. *)
Definition execute (c : Command) (w : World) : Result Z * World :=
  let fmt := format (output (configuration_ c)) in
  let flt := content (output (configuration_ c)) in
  match EventsDatabaseReader_from (Arguments.input (arguments_ c)) w with
  | Err e => (Err e, w)
  | Ok commands =>
      let build := compilation (configuration_ c) in
      let '(new_entries_count, entries) := transform build commands [] in
      let '(merged, entries) :=
        if Arguments.append (arguments_ c) then
          let '(old, entries) :=
            from_json fmt flt (Arguments.output (arguments_ c)) entries w in
          (rust.map (fun old_entries_count =>
                       new_entries_count + old_entries_count) old,
           entries)
        else (Ok new_entries_count, entries) in
      match merged with
      | Err e => (Err e, w)
      | Ok size =>
          let '(written, w') :=
            to_json fmt flt (Arguments.output (arguments_ c)) entries w in
          (rust.map (fun _ => EXIT_SUCCESS) written, w')
      end
  end.

(** [Application::command], from the parsed flags and the environment
    map [sys::env::from] builds. *)
Definition command (args : flags_Arguments) (environment : gmap string string)
    (w : World) : Result Command :=
  let arguments := into_arguments args w in
  let configuration := into_configuration args environment w in
  rust.map
    (fun tuples : Arguments.t * Configuration =>
       let '(arguments, configuration) := tuples in
       {| arguments_ := arguments; configuration_ := configuration |})
    (rust.merge arguments configuration).

End application.

(** What a turn of [update_compilers_to_recognize] appends. *)
Definition env_wrapper (compiler : path) : CompilerWrapper :=
  {| executable := compiler; flags_to_add := []; flags_to_remove := [] |}.

(** What [to_abspath] makes of one path. *)
Definition abspath (root p : path) : path :=
  if is_absolute p then p else append root p.

(** The entries one record of the log adds to the output of
    [transform]: those of a compiler call, none otherwise. *)
Definition record_entries `{Recognizer} (build : Compilation)
    (it : Result Event) : list Entry.t :=
  match rust.and_then (recognize build) it with
  | Ok semantic =>
      match as_compiler_call semantic with
      | Some candidate => into_entries candidate
      | None => []
      end
  | Err _ => []
  end.

End cs.

(** ** The event log reader and the database writer

    [db::EventsDatabaseReader] and [cs::CompilationDatabase] are used by
    [Application.cc] through their headers; the definitions of this module
    give them the behaviour the specification states in its sections 4.E
    (content filter), 4.F (database writer) and 7 (error kinds). *)

Module spec.
Import fs cs.

(** Modelled from the spec: the state [libsys] and the file streams of
    [Output.cc] act on: the files the run can see, the working directory,
    and the paths a write is refused on (the I/O failure of section 7). *)
Record World := {
  files : gmap string string;
  cwd : Result path;
  read_only : gset string
}.

Definition host : Host := {|
  cs.World := World;
  fs_exists p w := bool_decide (is_Some (files w !! p));
  get_cwd := cwd
|}.

(** The byte formats, which the specification leaves to "thin external
    collaborators": the event log records and the JSON text. *)
Class Codec `{Recognizer} := {
  parse_events : string -> Result (list (Result Event));
  parse_entries : string -> Result (list Entry.t);
  render_entries : Format -> list Entry.t -> string
}.

(** Modelled from the spec: the equality of entries [Output.cc] merges
    by: the natural key [(directory, file, arguments)]. *)
Definition natural_key (e : Entry.t) : path * path * list string :=
  (Entry.directory e, Entry.file e, Entry.arguments e).

(** Modelled from the spec: the path the content filter of [Output.cc]
    tests: the source of an entry, resolved against its directory ("entry
    file is either absolute or resolvable against directory"). *)
Definition resolved_source (e : Entry.t) : path :=
  append (Entry.directory e) (Entry.file e).

(** Modelled from the spec: the content filter of
    [cs::CompilationDatabase] (section 4.E); an entry is dropped if (a) only existing sources are wanted and the resolved
    source does not exist, (b) an excluded prefix matches, (c) there are
    included prefixes and none matches. *)
Definition content_filter (c : Content) (w : World) (e : Entry.t) : bool :=
  let source := resolved_source e in
  negb (include_only_existing_source c
        && negb (bool_decide (is_Some (files w !! source))))
  && negb (existsb (fun p => String.prefix p source) (paths_to_exclude c))
  && match paths_to_include c with
     | [] => true
     | included => existsb (fun p => String.prefix p source) included
     end.

(** Modelled from the spec: the union by natural key of
    [cs::CompilationDatabase]; of the entries that share a key the first
    one of the list is kept. *)
Fixpoint unique_by_key (l : list Entry.t) : list Entry.t :=
  match l with
  | [] => []
  | e :: rest =>
      e :: filter (fun x => natural_key x ≠ natural_key e) (unique_by_key rest)
  end.

(** Modelled from the spec: the merge of [CompilationDatabase::from_json],
    "union by the natural key with new entries overriding prior on
    collision": the new entries come first. *)
Definition merge_entries (prior new : list Entry.t) : list Entry.t :=
  unique_by_key (new ++ prior).

(** Modelled from the spec: the order of the entries
    [CompilationDatabase::to_json] writes, "by (file, directory)". *)
Definition entry_leb (a b : Entry.t) : bool :=
  match String.compare (Entry.file a) (Entry.file b) with
  | Lt => true
  | Gt => false
  | Eq => String.leb (Entry.directory a) (Entry.directory b)
  end.

Definition entry_le (a b : Entry.t) : Prop := entry_leb a b = true.

Fixpoint insert_entry (e : Entry.t) (l : list Entry.t) : list Entry.t :=
  match l with
  | [] => [e]
  | x :: rest => if entry_leb e x then e :: l else x :: insert_entry e rest
  end.

(** Modelled from the spec: the sort of [CompilationDatabase::to_json],
    "sort by (file, directory) for deterministic output"; the sort is
    stable. *)
Definition sort_entries (l : list Entry.t) : list Entry.t :=
  foldr insert_entry [] l.

(** Modelled from the spec: the list [CompilationDatabase::to_json]
    emits for a list of entries: "filters by configured inclusion rules",
    no duplicate natural key, sorted. *)
Definition canonical (c : Content) (w : World) (entries : list Entry.t)
  : list Entry.t :=
  sort_entries (unique_by_key (List.filter (content_filter c w) entries)).

Section storage.
Context `{Recognizer} `{!Codec}.

(** Modelled from the spec: [db::EventsDatabaseReader::from]; opening
    the event log fails on a missing file, reading it on an unreadable
    prefix (section 7). *)
Definition events_from (p : path) (w : World)
  : Result (list (Result Event)) :=
  match files w !! p with
  | None => Err ("Opening the event log failed: " +:+ p)
  | Some bytes => parse_events bytes
  end.

(** Modelled from the spec: [cs::CompilationDatabase::from_json], "load
    prior entries, union by the natural key"; the count is the number of
    prior entries. *)
Definition database_from_json (fmt : Format) (c : Content) (p : path)
    (entries : list Entry.t) (w : World) : Result nat * list Entry.t :=
  match files w !! p with
  | None => (Err ("Opening the database failed: " +:+ p), entries)
  | Some bytes =>
      match parse_entries bytes with
      | Err e => (Err e, entries)
      | Ok prior => (Ok (length prior), merge_entries prior entries)
      end
  end.

(** Modelled from the spec: [cs::CompilationDatabase::to_json]; the
    write is atomic: the file holds the rendering of the canonical list, or
    is left as it was. *)
Definition database_to_json (fmt : Format) (c : Content) (p : path)
    (entries : list Entry.t) (w : World) : Result nat * World :=
  if bool_decide (p ∈ read_only w) then
    (Err ("Writing the database failed: " +:+ p), w)
  else
    let emitted := canonical c w entries in
    (Ok (length emitted),
     {| files := <[p := render_entries fmt emitted]> (files w);
        cwd := cwd w;
        read_only := read_only w |}).

Definition storage : @Storage host _ :=
  @Build_Storage host _ events_from database_from_json database_to_json.

End storage.

End spec.

(** ** A small instance, to run the model on concrete inputs

    Records are lines of tab-separated fields.  An event is
    [directory, compiler, source]; a database line is [directory, file,
    arguments], the arguments separated by spaces. *)

Module sample.
Import fs cs spec.

Definition TAB : ascii := "009"%char.
Definition NL : ascii := "010"%char.

Definition compare : Compare := {| path_eqb := String.eqb |}.

Definition recognizer : Recognizer := {|
  Event := list string;
  Semantic := option Entry.t;
  CompilerCall := Entry.t;
  recognize build event :=
    match event with
    | [dir; cc; src] =>
        if existsb (fun wrapper => String.eqb (executable wrapper) cc)
             (compilers_to_recognize build)
        then Ok (Some {| Entry.file := src; Entry.directory := dir;
                         Entry.output := None;
                         Entry.arguments := [cc; "-c"; src] |})
        else Ok None
    | _ => Err "unrecognizable event"
    end;
  as_compiler_call semantic := semantic;
  into_entries call := [call]
|}.

Definition lines (bytes : string) : list string :=
  filter (fun l => l ≠ "") (ic.split_on NL "" bytes).

Definition parse_event (line : string) : Result (list string) :=
  match ic.split_on TAB "" line with
  | [_] => Err "truncated record"
  | fields => Ok fields
  end.

Definition parse_entry (line : string) : option Entry.t :=
  match ic.split_on TAB "" line with
  | [dir; file; args] =>
      Some {| Entry.file := file; Entry.directory := dir;
              Entry.output := None;
              Entry.arguments := ic.split_on " "%char "" args |}
  | _ => None
  end.

Fixpoint join_with (sep : ascii) (l : list string) : string :=
  match l with
  | [] => ""
  | [x] => x
  | x :: rest => x +:+ String sep (join_with sep rest)
  end.

Definition render_entry (e : Entry.t) : string :=
  join_with TAB [Entry.directory e; Entry.file e;
                 join_with " "%char (Entry.arguments e)]
  +:+ String NL "".

Definition codec : @Codec recognizer := {|
  parse_events bytes :=
    if String.prefix "!" bytes then Err "unreadable event log"
    else Ok (parse_event <$> lines bytes);
  parse_entries bytes :=
    match mapM parse_entry (lines bytes) with
    | Some entries => Ok entries
    | None => Err "malformed database"
    end;
  render_entries _ entries := String.concat "" (render_entry <$> entries)
|}.

Definition gcc_only : Configuration := {|
  output := {| format := {| command_as_array := true;
                            drop_output_field := false |};
               content := {| include_only_existing_source := false;
                             paths_to_include := ["src"];
                             paths_to_exclude := ["/proj/third_party"] |} |};
  compilation := {| compilers_to_recognize :=
                      [{| executable := "gcc";
                          flags_to_add := ["-O2"];
                          flags_to_remove := [] |}];
                    compilers_to_exclude := [] |}
|}.

Definition flag_string (args : gmap string (list string)) (key : string)
  : Result string :=
  match args !! key with
  | Some [value] => Ok value
  | _ => Err ("no single value for " +:+ key)
  end.

Definition flag_bool (args : gmap string (list string)) (key : string)
  : Result bool :=
  match args !! key with
  | Some _ => Ok true
  | None => Err ("not given: " +:+ key)
  end.

Definition read_configuration (p : path) (w : World) : Result Configuration :=
  match files w !! p with
  | Some _ => Ok gcc_only
  | None => Err ("Opening the configuration failed: " +:+ p)
  end.

Definition no_compilers : Configuration := {|
  output := output gcc_only;
  compilation := {| compilers_to_recognize := [];
                    compilers_to_exclude := [] |}
|}.

Definition frontend : @Frontend host :=
  @Build_Frontend host (gmap string (list string))
    flag_string flag_bool read_configuration no_compilers (fun p => p).

Definition event_line (dir cc src : string) : string :=
  join_with TAB [dir; cc; src] +:+ String NL "".

(** Two compilations and, between them, a record the recognizer does
    not know. *)
Definition build_events : list (Result (list string)) :=
  [Ok ["/proj"; "gcc"; "a.c"]; Ok ["ld"]; Ok ["/proj"; "gcc"; "b.c"]].

Definition entry_for (dir cc src : string) : Entry.t :=
  {| Entry.file := src; Entry.directory := dir; Entry.output := None;
     Entry.arguments := [cc; "-c"; src] |}.

Definition citnames_flags : gmap string (list string) :=
  {[ "--input" := ["events.db"];
     "--output" := ["compile_commands.json"];
     "--config" := ["bear.json"];
     "--append" := [];
     "--run-checks" := [] ]}.

Definition build_environment : gmap string string :=
  {[ "CC" := "gcc"; "CXX" := "g++"; "HOME" := "/home/u" ]}.

(** A working directory with the configuration file, and no event log. *)
Definition configured_world : World := {|
  files := {[ "bear.json" := "{}" ]};
  cwd := Ok "/proj";
  read_only := ∅
|}.

(** The same, in a working directory that cannot be determined. *)
Definition lost_world : World := {|
  files := {[ "bear.json" := "{}" ]};
  cwd := Err "getcwd: No such file or directory";
  read_only := ∅
|}.


(** A configuration that recognizes gcc and filters nothing. *)
Definition plain_configuration : Configuration := {|
  output := {| format := {| command_as_array := true;
                            drop_output_field := false |};
               content := {| include_only_existing_source := false;
                             paths_to_include := [];
                             paths_to_exclude := [] |} |};
  compilation := compilation gcc_only
|}.

Definition overwrite_command : Command := {|
  arguments_ := {| Arguments.input := "events.db";
                   Arguments.output := "compile_commands.json";
                   Arguments.append := false |};
  configuration_ := plain_configuration
|}.

Definition append_command : Command := {|
  arguments_ := {| Arguments.input := "events.db";
                   Arguments.output := "compile_commands.json";
                   Arguments.append := true |};
  configuration_ := plain_configuration
|}.

(** The log of a build that compiled b.c, then a.c, then b.c again. *)
Definition build_log : string :=
  event_line "/proj" "gcc" "b.c" +:+ event_line "/proj" "gcc" "a.c"
  +:+ String.append "ld" (String NL "")
  +:+ event_line "/proj" "gcc" "b.c".

(** The log of a run that compiled nothing. *)
Definition idle_log : string := event_line "/proj" "cp" "a.c".

(** A database with the entries of z.c and a.c. *)
Definition prior_entries : list Entry.t :=
  [entry_for "/proj" "gcc" "z.c"; entry_for "/proj" "gcc" "a.c"].

Definition prior_database : string :=
  render_entry (entry_for "/proj" "gcc" "a.c")
  +:+ render_entry (entry_for "/proj" "gcc" "z.c").

Definition fresh_world : World := {|
  files := {[ "events.db" := build_log ]};
  cwd := Ok "/proj";
  read_only := ∅
|}.

Definition rebuilt_world : World := {|
  files := {[ "events.db" := build_log;
              "compile_commands.json" := prior_database ]};
  cwd := Ok "/proj";
  read_only := ∅
|}.

Definition idle_world : World := {|
  files := {[ "events.db" := idle_log;
              "compile_commands.json" := prior_database ]};
  cwd := Ok "/proj";
  read_only := ∅
|}.

End sample.

(** More worlds to run the application in. *)

Module sample_worlds.
Import fs cs spec sample.

(** The log of a build and the configuration file; no database yet. *)
Definition ready_world : World := {|
  files := {[ "events.db" := build_log; "bear.json" := "{}" ]};
  cwd := Ok "/proj";
  read_only := ∅
|}.

(** The log of a build and a database that is no database. *)
Definition broken_world : World := {|
  files := {[ "events.db" := build_log;
              "compile_commands.json" := "garbage" ]};
  cwd := Ok "/proj";
  read_only := ∅
|}.

(** A [from_json] that reads nothing. *)
Definition no_from_json (fmt : Format) (c : Content) (p : path)
    (entries : list Entry.t) (w : World) : Result nat * list Entry.t :=
  (Err "not read", entries).


(** A configuration that recognizes gcc and drops the entries whose
    source does not exist. *)
Definition checking_configuration : Configuration := {|
  output := {| format := {| command_as_array := true;
                            drop_output_field := false |};
               content := {| include_only_existing_source := true;
                             paths_to_include := [];
                             paths_to_exclude := [] |} |};
  compilation := compilation gcc_only
|}.

(** A run that writes its database into the project directory. *)
Definition listing_command : Command := {|
  arguments_ := {| Arguments.input := "events.db";
                   Arguments.output := "/proj/compile_commands.json";
                   Arguments.append := false |};
  configuration_ := checking_configuration
|}.



(** The same project after b.c was added to it. *)
Definition grown_world : World := {|
  files := {[ "events.db" := build_log; "/proj/a.c" := "int main;";
              "/proj/b.c" := "int f;" ]};
  cwd := Ok "/proj";
  read_only := ∅
|}.

(** The project with a.c only, and the same log. *)
Definition small_world : World := {|
  files := {[ "events.db" := build_log; "/proj/a.c" := "int main;" ]};
  cwd := Ok "/proj";
  read_only := ∅
|}.

(** A well-formed database that lists z.c before a.c. *)
Definition unsorted_database : string :=
  render_entry (entry_for "/proj" "gcc" "z.c")
  +:+ render_entry (entry_for "/proj" "gcc" "a.c").

Definition unsorted_world : World := {|
  files := {[ "events.db" := idle_log;
              "compile_commands.json" := unsorted_database ]};
  cwd := Ok "/proj";
  read_only := ∅
|}.

End sample_worlds.

(** * Properties *)

(** ** The library preload session *)

Module ic_facts.
Import ic.

Example keep_front_sample :
  @keep_front_in_path bear_session_base
    "/lib/libexec.so" "/a.so:/lib/libexec.so:/b.so"
  = "/lib/libexec.so:/a.so:/b.so".
Proof. vm_compute. reflexivity. Qed.

Section session_facts.
Context `{Environments} `{SessionBase}.

(** The two overloads make the same assignments. *)
Lemma update_mutable_eq s env : update_mutable s env = update s env.
Proof. reflexivity. Qed.

(** The last assignment of [update] decides the preload key. *)
Lemma update_lookup_preload s env :
  ∃ previous,
    update s env !! GLIBC_PRELOAD_KEY
    = Some (keep_front_in_path (library_ s) previous).
Proof. unfold update. eexists. apply lookup_insert_eq. Qed.

(** A key that is none of the four is looked up in the input map. *)
Lemma update_lookup_other s env k :
  k ≠ KEY_VERBOSE → k ≠ KEY_DESTINATION → k ≠ KEY_REPORTER →
  k ≠ GLIBC_PRELOAD_KEY →
  update s env !! k = env !! k.
Proof.
  intros Hv Hd Hr Hp. unfold update.
  rewrite !lookup_insert_ne by done.
  destruct (verbose_ s); [by rewrite lookup_insert_ne|done].
Qed.

(** C4 (as amended): when the four reserved keys are distinct, the map
    [update] returns holds the session locator under the session-locator
    key, the executor under the reporter key, and under LD_PRELOAD the
    preload library kept at the front of the value the input had there
    (the empty string if it had none).  The verbose key holds "true" when
    the session is verbose; when it is not, the key is as the input has
    it.  The protobuf overload computes the same map. *)
Theorem update_sets_session_keys s (env : gmap string string) :
  NoDup [KEY_VERBOSE; KEY_DESTINATION; KEY_REPORTER; GLIBC_PRELOAD_KEY] →
  update s env !! KEY_DESTINATION = Some (session_locator_ s)
  ∧ update s env !! KEY_REPORTER = Some (executor_ s)
  ∧ update s env !! GLIBC_PRELOAD_KEY
    = Some (keep_front_in_path (library_ s) (subscript env GLIBC_PRELOAD_KEY))
  ∧ (verbose_ s = true → update s env !! KEY_VERBOSE = Some "true")
  ∧ (verbose_ s = false → update s env !! KEY_VERBOSE = env !! KEY_VERBOSE)
  ∧ update_mutable s env = update s env.
Proof.
  intros Hkeys.
  apply NoDup_cons in Hkeys as [Hv Hkeys].
  apply NoDup_cons in Hkeys as [Hd Hkeys].
  apply NoDup_cons in Hkeys as [Hr _].
  assert (KEY_VERBOSE ≠ KEY_DESTINATION) by set_solver.
  assert (KEY_VERBOSE ≠ KEY_REPORTER) by set_solver.
  assert (KEY_VERBOSE ≠ GLIBC_PRELOAD_KEY) by set_solver.
  assert (KEY_DESTINATION ≠ KEY_REPORTER) by set_solver.
  assert (KEY_DESTINATION ≠ GLIBC_PRELOAD_KEY) by set_solver.
  assert (KEY_REPORTER ≠ GLIBC_PRELOAD_KEY) by set_solver.
  unfold update, subscript. repeat split.
  - rewrite !lookup_insert_ne by done. apply lookup_insert_eq.
  - rewrite !lookup_insert_ne by done. apply lookup_insert_eq.
  - rewrite lookup_insert_eq. do 2 f_equal.
    rewrite !lookup_insert_ne by done.
    destruct (verbose_ s); [by rewrite lookup_insert_ne|done].
  - intros ->. rewrite !lookup_insert_ne by done. apply lookup_insert_eq.
  - intros ->. by rewrite !lookup_insert_ne by done.
Qed.

(** C5: [resolve] never fails; the execution it returns has the
    executable, the argument vector and the working directory of its
    argument, and every environment entry whose key is none of the verbose
    key, the session-locator key, the reporter key and LD_PRELOAD is as it
    was; [update] leaves those entries alone too. *)
Theorem resolve_changes_reserved_keys_only s (execution : Execution) k :
  k ≠ KEY_VERBOSE → k ≠ KEY_DESTINATION → k ≠ KEY_REPORTER →
  k ≠ GLIBC_PRELOAD_KEY →
  ∃ candidate,
    resolve s execution = Ok candidate
    ∧ executable candidate = executable execution
    ∧ arguments candidate = arguments execution
    ∧ working_dir candidate = working_dir execution
    ∧ environment candidate !! k = environment execution !! k
    ∧ ∀ env : gmap string string, update s env !! k = env !! k.
Proof.
  intros Hv Hd Hr Hp. eexists. split; [reflexivity|]. simpl.
  repeat split.
  - rewrite update_mutable_eq. by apply update_lookup_other.
  - intros env. by apply update_lookup_other.
Qed.

End session_facts.

Lemma update_sets_session_keys_witness :
  NoDup [@KEY_VERBOSE bear_environments; @KEY_DESTINATION bear_environments;
         @KEY_REPORTER bear_environments; GLIBC_PRELOAD_KEY]
  ∧ @update bear_environments bear_session_base verbose_session
      (environment make_execution) !! GLIBC_PRELOAD_KEY
    = Some "/usr/lib/bear/libexec.so:/opt/a.so"
  ∧ @update bear_environments bear_session_base verbose_session
      (environment make_execution) !! @KEY_VERBOSE bear_environments
    = Some "true".
Proof.
  assert (NoDup [@KEY_VERBOSE bear_environments;
                 @KEY_DESTINATION bear_environments;
                 @KEY_REPORTER bear_environments; GLIBC_PRELOAD_KEY])
    as Hkeys by compute_done.
  split; [exact Hkeys|].
  destruct (@update_sets_session_keys bear_environments bear_session_base
              verbose_session (environment make_execution) Hkeys)
    as (_ & _ & Hpreload & Hverbose & _).
  split; [rewrite Hpreload; vm_compute; reflexivity|].
  apply Hverbose. reflexivity.
Defined.

(** C4, as stated, fails: a session that is not verbose leaves a verbose
    key of the input in place, so the key holds "true" although the
    session is quiet. *)
Lemma update_verbose_key_inherited :
  let env : gmap string string := {[ "INTERCEPT_VERBOSE" := "true" ]} in
  ¬ (@update bear_environments bear_session_base quiet_session env
       !! @KEY_VERBOSE bear_environments = Some "true"
     ↔ verbose_ quiet_session = true).
Proof.
  intros env [Hto _].
  assert (verbose_ quiet_session = true) as Hverbose; [|discriminate Hverbose].
  apply Hto. vm_compute. reflexivity.
Qed.

Lemma resolve_changes_reserved_keys_only_witness :
  ∃ candidate,
    @resolve bear_environments bear_session_base verbose_session make_execution
    = Ok candidate
    ∧ executable candidate = "/usr/bin/make"
    ∧ environment candidate !! "HOME" = Some "/home/u".
Proof.
  destruct (@resolve_changes_reserved_keys_only bear_environments
              bear_session_base verbose_session make_execution "HOME")
    as (candidate & Hok & Hexe & _ & _ & Henv & _); try discriminate.
  exists candidate. rewrite Hok, Hexe, Henv. repeat split.
Defined.

End ic_facts.

(** ** Citnames: arguments, configuration and the run *)

Module cs_facts.
Import fs cs.

Section application_facts.
Context `{Compare} `{Frontend} `{Recognizer} `{!Storage}.

(** A turn of the loop only ever extends the output list, and counts
    what it adds. *)
Lemma transform_step_extends build count output it :
  ∃ added,
    transform_step build (count, output) it
    = (count + length added, output ++ added).
Proof.
  unfold transform_step.
  destruct (rust.and_then (recognize build) it) as [semantic|e].
  - destruct (as_compiler_call semantic) as [candidate|].
    + by exists (into_entries candidate).
    + exists []. by rewrite Nat.add_0_r, app_nil_r.
  - exists []. by rewrite Nat.add_0_r, app_nil_r.
Qed.

Lemma fold_transform_step_extends build events count output :
  ∃ added,
    fold_left (transform_step build) events (count, output)
    = (count + length added, output ++ added).
Proof.
  revert count output.
  induction events as [|it events IH]; intros count output; cbn [fold_left].
  - exists []. by rewrite Nat.add_0_r, app_nil_r.
  - destruct (transform_step_extends build count output it) as [first ->].
    destruct (IH (count + length first) (output ++ first)) as [rest ->].
    exists (first ++ rest).
    by rewrite length_app, Nat.add_assoc, app_assoc.
Qed.

(** A record that was not read, or not recognized, leaves the state of
    the loop as it is. *)
Lemma transform_step_failed build state it :
  (∃ e, it = Err e)
  ∨ (∃ event e, it = Ok event ∧ recognize build event = Err e) →
  transform_step build state it = state.
Proof.
  destruct state as [count output].
  intros [[e ->]|(event & e & -> & Hrecognize)]; simpl; [done|].
  by rewrite Hrecognize.
Qed.

(** C1: an event record whose read failed, or which the recognizer
    answered with an error, is skipped: [transform] over a log that holds
    it returns what it returns over the log without it, so the loop goes
    on to the events after it and the entries of the other events are
    accumulated; [transform] returns its count and an output list that
    extends the list it was given, whatever the records are. *)
Theorem transform_skips_failed_events build before it after output :
  (∃ e, it = Err e)
  ∨ (∃ event e, it = Ok event ∧ recognize build event = Err e) →
  transform build (before ++ it :: after) output
  = transform build (before ++ after) output
  ∧ ∃ added,
      transform build (before ++ it :: after) output
      = (length added, output ++ added).
Proof.
  intros Hfailed. split.
  - unfold transform. rewrite !fold_left_app. cbn [fold_left].
    by rewrite (transform_step_failed _ _ _ Hfailed).
  - apply (fold_transform_step_extends build _ 0 output).
Qed.

(** The list [execute] hands to the writer once the log [commands] is
    read: the new entries, extended by [from_json] in append mode. *)
Lemma execute_after_reading c w commands :
  EventsDatabaseReader_from (Arguments.input (arguments_ c)) w = Ok commands →
  let fmt := format (output (configuration_ c)) in
  let flt := content (output (configuration_ c)) in
  let out := Arguments.output (arguments_ c) in
  let new := snd (transform (compilation (configuration_ c)) commands []) in
  execute c w
  = if Arguments.append (arguments_ c) then
      match fst (from_json fmt flt out new w) with
      | Err e => (Err e, w)
      | Ok _ =>
          (rust.map (fun _ => EXIT_SUCCESS)
             (fst (to_json fmt flt out (snd (from_json fmt flt out new w)) w)),
           snd (to_json fmt flt out (snd (from_json fmt flt out new w)) w))
      end
    else
      (rust.map (fun _ => EXIT_SUCCESS) (fst (to_json fmt flt out new w)),
       snd (to_json fmt flt out new w)).
Proof.
  intros Hread. unfold execute. rewrite Hread. simpl.
  destruct (transform _ commands []) as [count entries]. simpl.
  destruct (Arguments.append (arguments_ c)).
  - destruct (from_json _ _ _ entries w) as [[old|e] merged]; simpl; [|done].
    by destruct (to_json _ _ _ merged w) as [written w'].
  - by destruct (to_json _ _ _ entries w) as [written w'].
Qed.

(** C2: [execute] returns the success exit code exactly when the event
    log is read, the prior database is merged (in append mode) and the
    database is written, all three without error; its result is the
    success code or an error, never another code; an error of the reader
    is returned as it is. *)
Theorem execute_exit_code c w :
  let fmt := format (output (configuration_ c)) in
  let flt := content (output (configuration_ c)) in
  let out := Arguments.output (arguments_ c) in
  let reading := EventsDatabaseReader_from (Arguments.input (arguments_ c)) w in
  (fst (execute c w) = Ok EXIT_SUCCESS
   ↔ ∃ commands,
       reading = Ok commands
       ∧ let new := snd (transform (compilation (configuration_ c)) commands []) in
         let merging := from_json fmt flt out new w in
         (Arguments.append (arguments_ c) = true
          → rust.is_ok (fst merging) = true)
         ∧ rust.is_ok
             (fst (to_json fmt flt out
                     (if Arguments.append (arguments_ c)
                      then snd merging else new) w)) = true)
  ∧ (fst (execute c w) = Ok EXIT_SUCCESS ∨ ∃ e, fst (execute c w) = Err e)
  ∧ (∀ e, reading = Err e → execute c w = (Err e, w)).
Proof.
  intros fmt flt out reading.
  destruct reading as [commands|e] eqn:Hread; subst reading.
  - assert (∀ P : list (Result Event) → Prop,
              (∃ commands', Ok commands = Ok commands' ∧ P commands')
              ↔ P commands) as Hthis.
    { intros P. split; [by intros (? & [= <-] & ?)|by exists commands]. }
    rewrite (execute_after_reading c w commands Hread).
    split; [etrans; [|symmetry; apply Hthis]|split; [|done]]; simpl;
      fold fmt flt out;
      set (new := snd (transform (compilation (configuration_ c)) commands []));
      destruct (Arguments.append (arguments_ c));
      try (destruct (from_json fmt flt out new w) as [[old|e] merged]; simpl);
      try (destruct (to_json fmt flt out _ w) as [[n|e'] w']; simpl);
      try (by left); try (right; by eexists);
      split; try done; try (by intros [_ ?]);
      intros [Hmerged _]; by specialize (Hmerged eq_refl).
  - unfold execute. rewrite Hread. simpl.
    split; [|split; [right; by exists e|by intros ? [= ->]]].
    split; [done|]. by intros (? & ? & _).
Qed.

(** C3: when the flags name an input path that is not an existing
    file, [into_arguments] returns an error, and so does
    [Application::command], whatever the configuration: no [Command] is
    made, so nothing is there to write an output.  When the flags carry an
    output path too, as the parser's defaults ensure, the error is the
    message about the missing input file. *)
Theorem into_arguments_missing_input args environment w input :
  as_string args FLAG_INPUT = Ok input →
  is_exists input w = false →
  ∃ e,
    into_arguments args w = Err e
    ∧ command args environment w = Err e
    ∧ ∀ output,
        as_string args FLAG_OUTPUT = Ok output →
        e = "Missing input file: " +:+ fmt_path input.
Proof.
  intros Hinput Hmissing.
  unfold command, into_arguments. rewrite Hinput.
  destruct (as_string args FLAG_OUTPUT) as [output|e]; simpl.
  - rewrite Hmissing. simpl. eexists. by repeat split.
  - exists e. by repeat split.
Qed.

Lemma update_compilers_to_recognize_cons wrappers compiler compilers :
  update_compilers_to_recognize wrappers (compiler :: compilers)
  = update_compilers_to_recognize
      (if existsb (fun wrapper => path_eqb (executable wrapper) compiler) wrappers
       then wrappers else wrappers ++ [env_wrapper compiler])
      compilers.
Proof.
  unfold update_compilers_to_recognize at 1. cbn [fold_left].
  by destruct (existsb _ wrappers).
Qed.

(** The shape of the list [update_compilers_to_recognize] returns: the
    wrappers it was given, then fresh wrappers for some of the compilers,
    none of which compares equal to a wrapper before it. *)
Lemma update_compilers_to_recognize_spec wrappers compilers :
  (∀ p, path_eqb p p = true) →
  ∃ added,
    update_compilers_to_recognize wrappers compilers = wrappers ++ added
    ∧ Forall (fun wrapper =>
                wrapper = env_wrapper (executable wrapper)
                ∧ executable wrapper ∈ compilers) added
    ∧ Forall (fun compiler =>
                ∃ wrapper, wrapper ∈ wrappers ++ added
                           ∧ path_eqb (executable wrapper) compiler = true)
        compilers
    ∧ Forall (fun wrapper =>
                Forall (fun configured =>
                          path_eqb (executable configured) (executable wrapper)
                          = false) wrappers) added
    ∧ ForallOrdPairs (fun earlier later =>
                        path_eqb (executable earlier) (executable later) = false)
        added.
Proof.
  intros Hrefl. revert wrappers.
  induction compilers as [|compiler compilers IH]; intros wrappers.
  - exists []. rewrite app_nil_r. repeat split; constructor.
  - rewrite update_compilers_to_recognize_cons.
    destruct (existsb _ wrappers) eqn:Hknown.
    + destruct (IH wrappers) as (added & -> & Hfresh & Hall & Hnew & Hpairs).
      exists added. repeat split; [|constructor|..]; try done.
      * eapply Forall_impl; [exact Hfresh|]. intros ? [? ?].
        split; [done|by right].
      * apply existsb_exists in Hknown as (wrapper & Hin & Heq).
        exists wrapper. split; [|done].
        apply elem_of_app. left. by apply list_elem_of_In.
    + destruct (IH (wrappers ++ [env_wrapper compiler]))
        as (added & -> & Hfresh & Hall & Hnew & Hpairs).
      exists (env_wrapper compiler :: added).
      rewrite <- app_assoc. repeat split; try done.
      * constructor; [split; [done|by left]|].
        eapply Forall_impl; [exact Hfresh|]. intros ? [? ?].
        split; [done|by right].
      * constructor.
        -- exists (env_wrapper compiler). split; [set_solver|apply Hrefl].
        -- eapply Forall_impl; [exact Hall|].
           intros ? (wrapper & Hin & ?). exists wrapper.
           split; [|done]. by rewrite <- app_assoc in Hin.
      * constructor.
        -- apply Forall_forall. intros configured Hin.
           apply list_elem_of_In in Hin.
           destruct (path_eqb (executable configured) compiler) eqn:Heq; [|done].
           assert (existsb (fun wrapper => path_eqb (executable wrapper) compiler)
                     wrappers = true) as Hyes; [|congruence].
           apply existsb_exists. by exists configured.
        -- eapply Forall_impl; [exact Hnew|]. intros wrapper Hwrappers.
           by apply Forall_app in Hwrappers as [? _].
      * constructor; [|done].
        eapply Forall_impl; [exact Hnew|]. intros wrapper Hwrappers.
        apply Forall_app in Hwrappers as [_ Hlast].
        by inversion Hlast.
Qed.

(** The compilers of the environment are the values of CC, CXX and FC. *)
Lemma elem_of_compilers (environment : gmap string string) compiler :
  compiler ∈ compilers environment
  ↔ ∃ variable, variable ∈ ["CC"; "CXX"; "FC"]
                ∧ environment !! variable = Some compiler.
Proof.
  unfold compilers.
  destruct (environment !! "CC") as [cc|] eqn:Hcc;
    destruct (environment !! "CXX") as [cxx|] eqn:Hcxx;
    destruct (environment !! "FC") as [fc|] eqn:Hfc; simpl;
    (split;
     [ rewrite ?elem_of_cons, elem_of_nil; intros Hin;
       repeat (destruct Hin as [->|Hin]); try done;
       [> (by exists "CC"; split; [set_solver|])
        || (by exists "CXX"; split; [set_solver|])
        || (by exists "FC"; split; [set_solver|]) ..]
     | intros (variable & Hvar & Hlookup);
       rewrite !elem_of_cons, elem_of_nil in Hvar;
       destruct Hvar as [->|[->|[->|[]]]]; set_solver ]).
Qed.

(** C6: the configuration [into_configuration] returns lists the
    compilers to recognize of the configuration it loaded, unchanged and
    in front, then wrappers with no flags to add or remove whose
    executables are values of CC, CXX or FC; every one of these variables
    that is present names a recognized executable; and no added wrapper
    compares equal to a configured one or to one added before it, so a
    path that is configured stays with its configured flags only. *)
Theorem into_configuration_recognizes_environment_compilers
    args (environment : gmap string string) w result :
  (∀ p, path_eqb p p = true) →
  into_configuration args environment w = Ok result →
  ∃ config added,
    loaded_configuration args w = Ok config
    ∧ compilers_to_recognize (compilation result)
      = compilers_to_recognize (compilation config) ++ added
    ∧ Forall (fun wrapper =>
                flags_to_add wrapper = [] ∧ flags_to_remove wrapper = []
                ∧ ∃ variable, variable ∈ ["CC"; "CXX"; "FC"]
                              ∧ environment !! variable
                                = Some (executable wrapper)) added
    ∧ (∀ variable compiler,
         variable ∈ ["CC"; "CXX"; "FC"] →
         environment !! variable = Some compiler →
         ∃ wrapper, wrapper ∈ compilers_to_recognize (compilation result)
                    ∧ path_eqb (executable wrapper) compiler = true)
    ∧ Forall (fun wrapper =>
                Forall (fun configured =>
                          path_eqb (executable configured) (executable wrapper)
                          = false)
                  (compilers_to_recognize (compilation config))) added
    ∧ ForallOrdPairs (fun earlier later =>
                        path_eqb (executable earlier) (executable later) = false)
        added.
Proof.
  intros Hrefl. unfold into_configuration.
  destruct (loaded_configuration args w) as [config|e]; simpl; [|done].
  intros [= <-]. simpl.
  destruct (update_compilers_to_recognize_spec
              (compilers_to_recognize (compilation config))
              (compilers environment) Hrefl)
    as (added & Hlist & Hfresh & Hall & Hnew & Hpairs).
  exists config, added. rewrite Hlist. repeat split; try done.
  - eapply Forall_impl; [exact Hfresh|]. intros wrapper [-> Hin].
    repeat split; try done. by apply elem_of_compilers.
  - intros variable compiler Hvar Hlookup.
    rewrite Forall_forall in Hall. apply Hall.
    apply elem_of_compilers. by exists variable.
Qed.

Example to_abspath_sample :
  to_abspath ["src"; "/opt/include"; "lib/"] "/proj"
  = ["/proj/src"; "/opt/include"; "/proj/lib/"].
Proof. reflexivity. Qed.

Example to_abspath_root_sample : to_abspath ["src"] "/" = ["/src"].
Proof. reflexivity. Qed.

Lemma to_abspath_fold root paths results :
  fold_left
    (fun results path =>
       let result := if is_absolute path then path else append root path in
       results ++ [result])
    paths results
  = results ++ (abspath root <$> paths).
Proof.
  revert results. induction paths as [|p paths IH]; intros results; simpl.
  - by rewrite app_nil_r.
  - rewrite IH. by rewrite <- app_assoc.
Qed.

Lemma to_abspath_fmap paths root :
  to_abspath paths root = abspath root <$> paths.
Proof. apply (to_abspath_fold root paths []). Qed.

Lemma is_absolute_app root rest :
  is_absolute root = true → is_absolute (root +:+ rest) = true.
Proof. destruct root as [|c root]; [done|]. simpl. by destruct (Ascii.eqb_spec c "/"). Qed.

(** Against an absolute root every path becomes absolute. *)
Lemma abspath_is_absolute root p :
  is_absolute root = true → is_absolute (abspath root p) = true.
Proof.
  intros Hroot. unfold abspath, append.
  destruct (is_absolute p) eqn:Hp; [done|].
  destruct (has_filename root); by apply is_absolute_app.
Qed.

(** C10 (as amended): the value [run_checks] of [into_configuration] is
    the --run-checks flag when it is given and the configuration's
    [include_only_existing_source] otherwise.  When it is set and the
    working directory is known, the content filter of the result has
    [include_only_existing_source] set and every path of its two lists
    made absolute against that directory, absolute paths being kept; the
    paths are all absolute when the working directory is.  When it is set
    and the working directory is not known, or when it is not set, the
    content filter is the one of the configuration.  The append flag of
    the validated arguments is the --append flag and the existence of the
    output file together. *)
Theorem into_configuration_content_and_append
    args (environment : gmap string string) w config :
  loaded_configuration args w = Ok config →
  let before := content (output config) in
  let run_checks := effective_run_checks args config in
  run_checks
  = match as_bool args FLAG_RUN_CHECKS with
    | Ok given => given
    | Err _ => include_only_existing_source before
    end
  ∧ (∃ result,
       into_configuration args environment w = Ok result
       ∧ (run_checks = true →
          ∀ root, get_cwd w = Ok root →
            content (output result)
            = {| include_only_existing_source := true;
                 paths_to_include := abspath root <$> paths_to_include before;
                 paths_to_exclude := abspath root <$> paths_to_exclude before |}
            ∧ (is_absolute root = true →
               Forall (fun p => is_absolute p = true)
                 (paths_to_include (content (output result))
                  ++ paths_to_exclude (content (output result)))))
       ∧ (run_checks = true →
          ∀ e, get_cwd w = Err e → content (output result) = before)
       ∧ (run_checks = false → content (output result) = before))
  ∧ (∀ arguments,
       into_arguments args w = Ok arguments →
       Arguments.append arguments
       = rust.unwrap_or (as_bool args FLAG_APPEND) false
         && is_exists (Arguments.output arguments) w).
Proof.
  intros Hloaded before run_checks. split; [|split].
  - unfold run_checks, effective_run_checks.
    by destruct (as_bool args FLAG_RUN_CHECKS).
  - unfold into_configuration. rewrite Hloaded. simpl.
    eexists. split; [reflexivity|]. simpl.
    fold before run_checks. unfold update_content.
    split; [|split].
    + intros Hset root Hcwd. rewrite Hset, Hcwd, !to_abspath_fmap.
      split; [done|]. intros Hroot. simpl.
      apply Forall_app. split; apply Forall_fmap, Forall_forall;
        intros p _; by apply abspath_is_absolute.
    + intros Hset e Hcwd. by rewrite Hset, Hcwd.
    + by intros ->.
  - intros arguments. unfold into_arguments.
    destruct (as_string args FLAG_INPUT) as [input|?]; [|done].
    destruct (as_string args FLAG_OUTPUT) as [output|?]; [|done]. simpl.
    destruct (is_exists input w); [|done]. simpl. by intros [= <-].
Qed.

End application_facts.

Import spec sample.

Lemma transform_skips_failed_events_witness :
  ((∃ e, Ok ["ld"] = @Err (@Event recognizer) e)
   ∨ (∃ event e, Ok ["ld"] = Ok event
                 ∧ @recognize recognizer (compilation gcc_only) event = Err e))
  ∧ @transform recognizer (compilation gcc_only) build_events []
    = (2, [entry_for "/proj" "gcc" "a.c"; entry_for "/proj" "gcc" "b.c"]).
Proof.
  assert ((∃ e, Ok ["ld"] = @Err (@Event recognizer) e)
          ∨ (∃ event e, Ok ["ld"] = Ok event
                        ∧ @recognize recognizer (compilation gcc_only) event
                          = Err e)) as Hfailed.
  { right. exists ["ld"], "unrecognizable event". by split. }
  split; [exact Hfailed|].
  destruct (@transform_skips_failed_events recognizer (compilation gcc_only)
              [Ok ["/proj"; "gcc"; "a.c"]] (Ok ["ld"])
              [Ok ["/proj"; "gcc"; "b.c"]] [] Hfailed) as [Hskip _].
  unfold build_events. simpl app in Hskip. rewrite Hskip.
  vm_compute. reflexivity.
Defined.

Lemma into_arguments_missing_input_witness :
  @as_string host frontend citnames_flags FLAG_INPUT = Ok "events.db"
  ∧ @is_exists host "events.db" configured_world = false
  ∧ @into_arguments host frontend citnames_flags configured_world
    = Err "Missing input file: events.db"
  ∧ @command compare host frontend citnames_flags build_environment
      configured_world
    = Err "Missing input file: events.db".
Proof.
  assert (@as_string host frontend citnames_flags FLAG_INPUT = Ok "events.db")
    as Hinput by (vm_compute; reflexivity).
  assert (@is_exists host "events.db" configured_world = false)
    as Hmissing by (vm_compute; reflexivity).
  destruct (@into_arguments_missing_input compare host frontend citnames_flags
              build_environment configured_world "events.db" Hinput Hmissing)
    as (e & Harguments & Hcommand & Hmessage).
  rewrite Harguments, Hcommand.
  rewrite (Hmessage "compile_commands.json") by (vm_compute; reflexivity).
  by repeat split.
Defined.

Lemma into_configuration_recognizes_environment_compilers_witness :
  (∀ p, @path_eqb compare p p = true)
  ∧ ∃ result,
      @into_configuration compare host frontend citnames_flags
        build_environment configured_world = Ok result
      ∧ compilers_to_recognize (compilation result)
        = [{| executable := "gcc"; flags_to_add := ["-O2"];
              flags_to_remove := [] |};
           env_wrapper "g++"]
      ∧ ∃ added,
          compilers_to_recognize (compilation result)
          = compilers_to_recognize (compilation gcc_only) ++ added
          ∧ ForallOrdPairs
              (fun earlier later =>
                 @path_eqb compare (executable earlier) (executable later)
                 = false) added.
Proof.
  assert (∀ p, @path_eqb compare p p = true) as Hrefl
    by apply String.eqb_refl.
  split; [exact Hrefl|].
  eexists. split; [vm_compute; reflexivity|]. split; [reflexivity|].
  destruct (@into_configuration_recognizes_environment_compilers
              compare host frontend citnames_flags build_environment
              configured_world _ Hrefl eq_refl)
    as (config & added & Hloaded & Hlist & _ & _ & _ & Hpairs).
  injection Hloaded as <-. by exists added.
Defined.

Lemma into_configuration_content_and_append_witness :
  @loaded_configuration host frontend citnames_flags configured_world
  = Ok gcc_only
  ∧ ∃ result,
      @into_configuration compare host frontend citnames_flags
        build_environment configured_world = Ok result
      ∧ content (output result)
        = {| include_only_existing_source := true;
             paths_to_include := ["/proj/src"];
             paths_to_exclude := ["/proj/third_party"] |}.
Proof.
  assert (@loaded_configuration host frontend citnames_flags configured_world
          = Ok gcc_only) as Hloaded by (vm_compute; reflexivity).
  split; [exact Hloaded|].
  destruct (@into_configuration_content_and_append compare host frontend
              citnames_flags build_environment configured_world gcc_only
              Hloaded)
    as (_ & (result & Hresult & Hset & _) & _).
  exists result. split; [exact Hresult|].
  destruct (Hset eq_refl "/proj" eq_refl) as [-> _]. reflexivity.
Defined.

(** C10, as stated, fails: with --run-checks given and a working
    directory that cannot be determined, the relative paths of the content
    filter stay relative and [include_only_existing_source] stays as the
    configuration has it. *)
Lemma run_checks_without_working_directory :
  ∃ result,
    @into_configuration compare host frontend citnames_flags
      build_environment lost_world = Ok result
    ∧ @effective_run_checks host frontend citnames_flags gcc_only = true
    ∧ include_only_existing_source (content (output result)) = false
    ∧ ¬ Forall (fun p => is_absolute p = true)
          (paths_to_include (content (output result))).
Proof.
  eexists. split; [vm_compute; reflexivity|].
  split; [vm_compute; reflexivity|]. split; [reflexivity|].
  intros [Hsrc _]%Forall_cons. discriminate Hsrc.
Qed.

End cs_facts.

(** ** The database writer and the run over it *)

Module spec_facts.
Import fs cs spec.

(** *** The union by natural key *)

Lemma elem_of_unique_by_key e l : e ∈ unique_by_key l → e ∈ l.
Proof.
  induction l as [|x rest IH]; simpl; [done|].
  rewrite !elem_of_cons, list_elem_of_filter.
  intros [->|[_ He]]; [by left|right; by apply IH].
Qed.

Lemma unique_by_key_covers l k :
  k ∈ natural_key <$> l → k ∈ natural_key <$> unique_by_key l.
Proof.
  induction l as [|x rest IH]; simpl; [done|].
  rewrite !elem_of_cons. intros [->|Hrest]; [by left|].
  destruct (decide (k = natural_key x)) as [->|Hother]; [by left|].
  right. apply list_elem_of_fmap in IH as (y & -> & Hy); [|done].
  apply list_elem_of_fmap_2, list_elem_of_filter. by split.
Qed.

Lemma unique_by_key_NoDup l : NoDup (natural_key <$> unique_by_key l).
Proof.
  induction l as [|x rest IH]; simpl; [constructor|].
  constructor.
  - intros (y & Hkey & Hy)%list_elem_of_fmap.
    apply list_elem_of_filter in Hy as [Hne _]. by apply Hne.
  - eapply sublist_NoDup; [exact IH|].
    apply fmap_sublist, sublist_filter.
Qed.

Lemma filter_other_keys_id x (l : list Entry.t) :
  natural_key x ∉ natural_key <$> l →
  filter (fun y => natural_key y ≠ natural_key x) l = l.
Proof.
  induction l as [|y rest IH]; simpl; [done|].
  rewrite not_elem_of_cons. intros [Hne Hrest].
  rewrite filter_cons_True by done. by rewrite IH.
Qed.

(** A list without two entries of one key is its own union. *)
Lemma unique_by_key_id l :
  NoDup (natural_key <$> l) → unique_by_key l = l.
Proof.
  induction l as [|x rest IH]; simpl; [done|].
  intros [Hfresh Hrest]%NoDup_cons.
  by rewrite IH, filter_other_keys_id.
Qed.

(** In the union of new and prior entries an entry is a new one, or a
    prior one whose key no new entry has. *)
Lemma elem_of_merge_entries prior new e :
  e ∈ merge_entries prior new →
  e ∈ new ∨ (e ∈ prior ∧ natural_key e ∉ natural_key <$> new).
Proof.
  unfold merge_entries. induction new as [|n new IH]; simpl.
  - intros He%elem_of_unique_by_key. right. split; [done|]. apply not_elem_of_nil.
  - rewrite elem_of_cons, list_elem_of_filter.
    intros [->|[Hne [Hnew|[Hprior Hkey]]%IH]].
    + left. by left.
    + left. by right.
    + right. split; [done|]. by apply not_elem_of_cons.
Qed.

(** *** The sort *)

Lemma entry_leb_total a b : entry_leb a b = false → entry_leb b a = true.
Proof.
  unfold entry_leb. rewrite (String.compare_antisym (Entry.file b)).
  destruct (String.compare (Entry.file a) (Entry.file b)); simpl; try done.
  intros Hdir.
  destruct (String.leb_total (Entry.directory a) (Entry.directory b)); congruence.
Qed.

Lemma insert_entry_Permutation e l : insert_entry e l ≡ₚ e :: l.
Proof.
  induction l as [|x rest IH]; simpl; [done|].
  destruct (entry_leb e x); [done|].
  rewrite IH. apply Permutation_swap.
Qed.

Lemma sort_entries_Permutation l : sort_entries l ≡ₚ l.
Proof.
  induction l as [|x rest IH]; simpl; [done|].
  by rewrite insert_entry_Permutation, IH.
Qed.

Lemma insert_entry_HdRel a e l :
  entry_le a e → HdRel entry_le a l → HdRel entry_le a (insert_entry e l).
Proof.
  intros Hae Hal. destruct l as [|x rest]; simpl; [by constructor|].
  destruct (entry_leb e x); constructor; [done|]. by inversion Hal.
Qed.

Lemma insert_entry_Sorted e l :
  Sorted entry_le l → Sorted entry_le (insert_entry e l).
Proof.
  induction 1 as [|x rest Hrest IH Hhd]; simpl; [by repeat constructor|].
  destruct (entry_leb e x) eqn:Hex.
  - constructor; [by constructor|]. by constructor.
  - constructor; [done|].
    apply insert_entry_HdRel; [|done]. by apply entry_leb_total.
Qed.

Lemma sort_entries_Sorted l : Sorted entry_le (sort_entries l).
Proof.
  induction l as [|x rest IH]; simpl; [constructor|].
  by apply insert_entry_Sorted.
Qed.

(** The sort leaves a sorted list as it is, entries of equal rank
    included. *)
Lemma sort_entries_id l : Sorted entry_le l → sort_entries l = l.
Proof.
  induction 1 as [|x rest Hrest IH Hhd]; simpl; [done|].
  rewrite IH. destruct Hhd as [|y rest Hxy]; simpl; [done|].
  unfold entry_le in Hxy. by rewrite Hxy.
Qed.

(** *** What a write emits *)

Lemma filter_all_id {A} (f : A → bool) l :
  Forall (fun x => f x = true) l → List.filter f l = l.
Proof.
  induction 1 as [|x rest Hx _ IH]; simpl; [done|]. by rewrite Hx, IH.
Qed.

Lemma elem_of_canonical c w entries e :
  e ∈ canonical c w entries →
  e ∈ entries ∧ content_filter c w e = true.
Proof.
  unfold canonical. rewrite sort_entries_Permutation.
  intros He%elem_of_unique_by_key.
  apply list_elem_of_In, filter_In in He as [He ?].
  split; [by apply list_elem_of_In|done].
Qed.

Lemma canonical_NoDup c w entries :
  NoDup (natural_key <$> canonical c w entries).
Proof.
  unfold canonical. rewrite sort_entries_Permutation.
  apply unique_by_key_NoDup.
Qed.

Lemma canonical_Sorted c w entries : Sorted entry_le (canonical c w entries).
Proof. apply sort_entries_Sorted. Qed.

Lemma canonical_covers c w entries e :
  e ∈ entries → content_filter c w e = true →
  natural_key e ∈ natural_key <$> canonical c w entries.
Proof.
  intros He Hkept. unfold canonical. rewrite sort_entries_Permutation.
  apply unique_by_key_covers, list_elem_of_fmap_2, list_elem_of_In, filter_In.
  split; [by apply list_elem_of_In|done].
Qed.

(** Emitting what a write emitted changes nothing. *)
Lemma canonical_idempotent c w entries :
  canonical c w (canonical c w entries) = canonical c w entries.
Proof.
  unfold canonical at 1.
  rewrite filter_all_id.
  - rewrite unique_by_key_id by apply canonical_NoDup.
    apply sort_entries_id, canonical_Sorted.
  - apply Forall_forall. intros e He. by apply elem_of_canonical in He as [_ ?].
Qed.

Section run.
Context `{Recognizer} `{!Codec}.

(** The run of [cs::Command::execute] over the reader and the writer of
    the specification. *)
Lemma run_after_reading c w commands :
  events_from (Arguments.input (arguments_ c)) w = Ok commands →
  let fmt := format (output (configuration_ c)) in
  let flt := content (output (configuration_ c)) in
  let out := Arguments.output (arguments_ c) in
  let new := snd (transform (compilation (configuration_ c)) commands []) in
  @execute host _ storage c w
  = if Arguments.append (arguments_ c) then
      match fst (database_from_json fmt flt out new w) with
      | Err e => (Err e, w)
      | Ok _ =>
          (rust.map (fun _ => EXIT_SUCCESS)
             (fst (database_to_json fmt flt out
                     (snd (database_from_json fmt flt out new w)) w)),
           snd (database_to_json fmt flt out
                  (snd (database_from_json fmt flt out new w)) w))
      end
    else
      (rust.map (fun _ => EXIT_SUCCESS) (fst (database_to_json fmt flt out new w)),
       snd (database_to_json fmt flt out new w)).
Proof.
  intros Hread.
  apply (@cs_facts.execute_after_reading host _ storage c w commands Hread).
Qed.

(** A run that succeeds has read its log. *)
Lemma run_success_reads c w :
  fst (@execute host _ storage c w) = Ok EXIT_SUCCESS →
  ∃ commands, events_from (Arguments.input (arguments_ c)) w = Ok commands.
Proof.
  intros Hrun.
  destruct (events_from (Arguments.input (arguments_ c)) w)
    as [commands|e] eqn:Hread; [by exists commands|].
  unfold execute in Hrun. simpl in Hrun. by rewrite Hread in Hrun.
Qed.

(** C7: after a run that wrote the database, the output file is the
    rendering of a list with no two entries of the same (directory, file,
    arguments), sorted by (file, directory).  Each entry of it passed the
    content filter and is a new entry, or a prior entry (append mode only)
    whose key no new entry has; and every key of a new or prior entry that
    passes the filter is in it. *)
Theorem written_database_is_unique_and_sorted c w :
  let fmt := format (output (configuration_ c)) in
  let flt := content (output (configuration_ c)) in
  let out := Arguments.output (arguments_ c) in
  fst (@execute host _ storage c w) = Ok EXIT_SUCCESS →
  ∃ commands prior emitted,
    events_from (Arguments.input (arguments_ c)) w = Ok commands
    ∧ (if Arguments.append (arguments_ c)
       then ∃ bytes, files w !! out = Some bytes
                     ∧ parse_entries bytes = Ok prior
       else prior = [])
    ∧ files (snd (@execute host _ storage c w)) !! out
      = Some (render_entries fmt emitted)
    ∧ NoDup (natural_key <$> emitted)
    ∧ Sorted entry_le emitted
    ∧ let new := snd (transform (compilation (configuration_ c)) commands []) in
      (∀ e, e ∈ emitted →
            content_filter flt w e = true
            ∧ (e ∈ new ∨ (e ∈ prior ∧ natural_key e ∉ natural_key <$> new)))
      ∧ (∀ e, e ∈ new ++ prior → content_filter flt w e = true →
              natural_key e ∈ natural_key <$> emitted).
Proof.
  intros fmt flt out Hrun.
  destruct (run_success_reads c w Hrun) as [commands Hread].
  rewrite (run_after_reading c w commands Hread) in Hrun |- *.
  fold fmt flt out in Hrun |- *.
  set (new := snd (transform (compilation (configuration_ c)) commands [])) in *.
  exists commands.
  destruct (Arguments.append (arguments_ c)).
  - unfold database_from_json in Hrun |- *.
    destruct (files w !! out) as [bytes|] eqn:Hbytes; [|done].
    destruct (parse_entries bytes) as [prior|e] eqn:Hparse; [|done].
    simpl in Hrun |- *. unfold database_to_json in Hrun |- *.
    destruct (bool_decide (out ∈ read_only w)); [done|]. simpl.
    exists prior, (canonical flt w (merge_entries prior new)).
    split; [done|]. split; [by exists bytes|].
    split; [apply lookup_insert_eq|].
    split; [apply canonical_NoDup|]. split; [apply canonical_Sorted|].
    split.
    + intros e [He ?]%elem_of_canonical. split; [done|].
      by apply elem_of_merge_entries.
    + intros e He Hkept.
      apply list_elem_of_fmap_2 with (f := natural_key) in He.
      apply unique_by_key_covers, list_elem_of_fmap in He as (x & Hkey & Hx).
      rewrite Hkey. apply canonical_covers; [done|].
      unfold content_filter, resolved_source in Hkept |- *.
      unfold natural_key in Hkey. by injection Hkey as <- <- _.
  - unfold database_to_json in Hrun |- *.
    destruct (bool_decide (out ∈ read_only w)); [done|]. simpl.
    exists [], (canonical flt w new).
    split; [done|]. split; [done|].
    split; [apply lookup_insert_eq|].
    split; [apply canonical_NoDup|]. split; [apply canonical_Sorted|].
    split.
    + intros e [He ?]%elem_of_canonical. split; [done|]. by left.
    + intros e He Hkept. rewrite app_nil_r in He. by apply canonical_covers.
Qed.


(** C9 (as amended): in append mode, when the log yields no entry and the output
    file is a database the writer wrote under this configuration and reads
    back as written, the run leaves the bytes of the file as they are, and
    succeeds when it may write the file. *)
Theorem append_of_nothing_keeps_database c w commands written :
  let fmt := format (output (configuration_ c)) in
  let flt := content (output (configuration_ c)) in
  let out := Arguments.output (arguments_ c) in
  Arguments.append (arguments_ c) = true →
  events_from (Arguments.input (arguments_ c)) w = Ok commands →
  snd (transform (compilation (configuration_ c)) commands []) = [] →
  files w !! out = Some (render_entries fmt (canonical flt w written)) →
  parse_entries (render_entries fmt (canonical flt w written))
  = Ok (canonical flt w written) →
  files (snd (@execute host _ storage c w)) !! out = files w !! out
  ∧ (out ∉ read_only w →
     fst (@execute host _ storage c w) = Ok EXIT_SUCCESS).
Proof.
  intros fmt flt out Happend Hread Hnone Hfile Hroundtrip.
  rewrite (run_after_reading c w commands Hread).
  rewrite Happend, Hnone. fold fmt flt out.
  unfold database_from_json. rewrite Hfile, Hroundtrip. simpl.
  unfold database_to_json, merge_entries. simpl.
  rewrite unique_by_key_id by apply canonical_NoDup.
  rewrite canonical_idempotent.
  destruct (bool_decide_reflect (out ∈ read_only w)) as [Hdenied|Hallowed]; simpl.
  - split; [done|]. by intros [].
  - split; [|done]. by rewrite lookup_insert_eq.
Qed.

End run.

Import sample sample_worlds.

Example run_without_log :
  @execute host recognizer (@storage recognizer codec)
    overwrite_command configured_world
  = (Err "Opening the event log failed: events.db", configured_world).
Proof. vm_compute. reflexivity. Qed.

Example fresh_database :
  files (snd (@execute host recognizer (@storage recognizer codec)
                overwrite_command fresh_world)) !! "compile_commands.json"
  = Some (render_entry (entry_for "/proj" "gcc" "a.c")
          +:+ render_entry (entry_for "/proj" "gcc" "b.c")).
Proof. vm_compute. reflexivity. Qed.

Example rebuilt_database :
  files (snd (@execute host recognizer (@storage recognizer codec)
                append_command rebuilt_world)) !! "compile_commands.json"
  = Some (render_entry (entry_for "/proj" "gcc" "a.c")
          +:+ render_entry (entry_for "/proj" "gcc" "b.c")
          +:+ render_entry (entry_for "/proj" "gcc" "z.c")).
Proof. vm_compute. reflexivity. Qed.

Lemma written_database_is_unique_and_sorted_witness :
  fst (@execute host recognizer (@storage recognizer codec)
         append_command rebuilt_world) = Ok EXIT_SUCCESS
  ∧ ∃ emitted,
      files (snd (@execute host recognizer (@storage recognizer codec)
                    append_command rebuilt_world)) !! "compile_commands.json"
      = Some (@render_entries recognizer codec
                (format (output plain_configuration)) emitted)
      ∧ NoDup (natural_key <$> emitted)
      ∧ Sorted entry_le emitted.
Proof.
  assert (fst (@execute host recognizer (@storage recognizer codec)
                 append_command rebuilt_world) = Ok EXIT_SUCCESS) as Hrun
    by (vm_compute; reflexivity).
  split; [exact Hrun|].
  destruct (@written_database_is_unique_and_sorted recognizer codec
              append_command rebuilt_world Hrun)
    as (commands & prior & emitted & _ & _ & Hfile & Hunique & Hsorted & _).
  by exists emitted.
Defined.



(** The same log and command give different databases when a source
    was deleted between the runs. *)
Example deleted_source_changes_database :
  files grown_world !! "events.db" = files small_world !! "events.db"
  ∧ files (snd (@execute host recognizer (@storage recognizer codec)
                  listing_command grown_world))
      !! "/proj/compile_commands.json"
    ≠ files (snd (@execute host recognizer (@storage recognizer codec)
                    listing_command small_world))
        !! "/proj/compile_commands.json".
Proof. split; [reflexivity|]. vm_compute. discriminate. Qed.

Lemma append_of_nothing_keeps_database_witness :
  Arguments.append (arguments_ append_command) = true
  ∧ snd (@transform recognizer (compilation plain_configuration)
           [Ok ["/proj"; "cp"; "a.c"]] []) = []
  ∧ files idle_world !! "compile_commands.json" = Some prior_database
  ∧ files (snd (@execute host recognizer (@storage recognizer codec)
                  append_command idle_world)) !! "compile_commands.json"
    = Some prior_database
  ∧ fst (@execute host recognizer (@storage recognizer codec)
           append_command idle_world) = Ok EXIT_SUCCESS.
Proof.
  assert (snd (@transform recognizer (compilation plain_configuration)
                 [Ok ["/proj"; "cp"; "a.c"]] []) = []) as Hnone
    by (vm_compute; reflexivity).
  assert (files idle_world !! "compile_commands.json" = Some prior_database)
    as Hfile by (vm_compute; reflexivity).
  split; [reflexivity|]. split; [exact Hnone|]. split; [exact Hfile|].
  destruct (@append_of_nothing_keeps_database recognizer codec append_command
              idle_world [Ok ["/proj"; "cp"; "a.c"]] prior_entries)
    as [Hkept Hsuccess].
  - reflexivity.
  - vm_compute. reflexivity.
  - exact Hnone.
  - vm_compute. reflexivity.
  - vm_compute. reflexivity.
  - split.
    + etrans; [exact Hkept|exact Hfile].
    + apply Hsuccess. simpl. apply not_elem_of_empty.
Defined.

(** C9, as stated, fails for a database that is well formed but not in
    the order the writer emits: an append of a log that yields no entry
    succeeds and rewrites the file with a.c before z.c. *)
Lemma idle_append_reorders_database :
  let run := @execute host recognizer (@storage recognizer codec)
               append_command unsorted_world in
  Arguments.append (arguments_ append_command) = true
  ∧ (∃ commands,
       @events_from recognizer codec "events.db" unsorted_world = Ok commands
       ∧ snd (@transform recognizer (compilation plain_configuration)
                commands []) = [])
  ∧ files unsorted_world !! "compile_commands.json" = Some unsorted_database
  ∧ @parse_entries recognizer codec unsorted_database
    = Ok [entry_for "/proj" "gcc" "z.c"; entry_for "/proj" "gcc" "a.c"]
  ∧ fst run = Ok EXIT_SUCCESS
  ∧ files (snd run) !! "compile_commands.json"
    ≠ files unsorted_world !! "compile_commands.json".
Proof.
  intros run.
  split; [reflexivity|].
  split; [eexists; split; vm_compute; reflexivity|].
  split; [vm_compute; reflexivity|]. split; [vm_compute; reflexivity|].
  split; [vm_compute; reflexivity|].
  vm_compute. discriminate.
Qed.

End spec_facts.

(** ** More on the library preload session *)

Module ic_session_facts.
Import ic.

Section update_facts.
Context `{Environments} `{SessionBase}.

(** The map [update] has before its last assignment, looked up. *)
Lemma update_lookup s (env : gmap string string) k :
  let before k :=
    if decide (KEY_REPORTER = k) then Some (executor_ s)
    else if decide (KEY_DESTINATION = k) then Some (session_locator_ s)
    else if verbose_ s && bool_decide (KEY_VERBOSE = k) then Some "true"
    else env !! k in
  update s env !! k
  = if decide (GLIBC_PRELOAD_KEY = k)
    then Some (keep_front_in_path (library_ s)
                 (default "" (before GLIBC_PRELOAD_KEY)))
    else before k.
Proof.
  intros before. unfold update, subscript.
  assert (∀ j, (<[KEY_REPORTER:=executor_ s]>
                  (<[KEY_DESTINATION:=session_locator_ s]>
                     (if verbose_ s then <[KEY_VERBOSE:="true"]> env else env)))
               !! j = before j) as Hbefore.
  { intros j. unfold before. rewrite !lookup_insert.
    destruct (verbose_ s); simpl; rewrite ?lookup_insert;
      repeat (case_decide || case_bool_decide); done || congruence. }
  rewrite lookup_insert, !Hbefore. by case_decide.
Qed.

(** X1: [update] removes no variable: the variables of the map it
    returns are those of its input, the session-locator, reporter and
    preload keys, and the verbose key when the session is verbose. *)
Theorem update_dom s (env : gmap string string) :
  dom (update s env)
  = dom env ∪ {[KEY_DESTINATION; KEY_REPORTER; GLIBC_PRELOAD_KEY]}
    ∪ (if verbose_ s then {[KEY_VERBOSE]} else ∅).
Proof.
  unfold update. rewrite !dom_insert_L.
  destruct (verbose_ s); rewrite ?dom_insert_L;
    apply set_eq; intros k; set_unfold; intuition.
Qed.

(** X2: what the input holds under the session-locator key or the
    reporter key has no influence on the map [update] returns. *)
Theorem update_forgets_inherited_session s (env : gmap string string) stale :
  update s (<[KEY_DESTINATION := stale]> env) = update s env
  ∧ update s (<[KEY_REPORTER := stale]> env) = update s env.
Proof.
  split; apply map_eq; intros k; rewrite !update_lookup; cbv zeta;
    rewrite !lookup_insert; repeat case_decide; try done;
    destruct (verbose_ s); simpl; repeat case_bool_decide; congruence.
Qed.

(** X3: when [keep_front_in_path] leaves the preload value that
    [update] produced as it is, a second [update] changes nothing, and
    neither does a second [resolve]. *)
Theorem update_twice s (execution : Execution) :
  let env := environment execution in
  keep_front_in_path (library_ s) (subscript (update s env) GLIBC_PRELOAD_KEY)
  = subscript (update s env) GLIBC_PRELOAD_KEY →
  update s (update s env) = update s env
  ∧ rust.and_then (resolve s) (resolve s execution) = resolve s execution.
Proof.
  intros env Hfront.
  assert (update s (update s env) = update s env) as Htwice.
  { apply map_eq. intros k. unfold subscript in Hfront.
    rewrite (update_lookup s (update s env) k). cbv zeta.
    rewrite !(update_lookup s env) in *. cbv zeta in *.
    repeat case_decide; try done;
      destruct (verbose_ s); simpl in *; repeat case_bool_decide;
      simpl in *; try done; try congruence. }
  split; [apply Htwice|].
  unfold resolve, rust.and_then. cbn [environment executable arguments working_dir].
  fold env. change (update_mutable s) with (update s). by rewrite Htwice.
Qed.

End update_facts.

Lemma update_twice_witness :
  let env := environment make_execution in
  @keep_front_in_path bear_session_base (library_ verbose_session)
    (subscript (@update bear_environments bear_session_base verbose_session env)
       GLIBC_PRELOAD_KEY)
  = subscript (@update bear_environments bear_session_base verbose_session env)
      GLIBC_PRELOAD_KEY
  ∧ @update bear_environments bear_session_base verbose_session
      (@update bear_environments bear_session_base verbose_session env)
    = @update bear_environments bear_session_base verbose_session env.
Proof.
  intros env.
  assert (@keep_front_in_path bear_session_base (library_ verbose_session)
            (subscript
               (@update bear_environments bear_session_base verbose_session env)
               GLIBC_PRELOAD_KEY)
          = subscript
              (@update bear_environments bear_session_base verbose_session env)
              GLIBC_PRELOAD_KEY) as Hfront by (vm_compute; reflexivity).
  split; [exact Hfront|].
  apply (@update_twice bear_environments bear_session_base verbose_session
           make_execution Hfront).
Defined.

Section creation_facts.
Context `{Environments} `{SessionBase} `{Flags} `{WrapperFlags} `{ProcessBuilder}.

(** X4: [from] makes a session exactly when the library and the wrapper
    flags have a value; the session has these two values, is verbose only
    when the verbose flag says so (without the flag it is not), and adds
    the verbose key to an environment only then.  A missing library is
    reported before a missing wrapper. *)
Theorem from_needs_library_and_wrapper (args : flags_Arguments) :
  (∀ library wrapper,
     as_string args ic_LIBRARY = Ok library →
     as_string args ic_WRAPPER = Ok wrapper →
     ∃ make,
       from args = Ok make
       ∧ ∀ locator,
           make locator
           = {| verbose_ := rust.unwrap_or (as_bool args flags_VERBOSE) false;
                library_ := library;
                executor_ := wrapper;
                session_locator_ := locator |}
           ∧ ∀ env : gmap string string,
               dom (update (make locator) env)
               = dom env ∪ {[KEY_DESTINATION; KEY_REPORTER; GLIBC_PRELOAD_KEY]}
                 ∪ (if rust.unwrap_or (as_bool args flags_VERBOSE) false
                    then {[KEY_VERBOSE]} else ∅))
  ∧ (∀ e, as_string args ic_LIBRARY = Err e → from args = Err e)
  ∧ (∀ library e,
       as_string args ic_LIBRARY = Ok library →
       as_string args ic_WRAPPER = Err e →
       from args = Err e).
Proof.
  unfold from. split; [|split].
  - intros library wrapper -> ->. simpl. eexists. split; [reflexivity|].
    intros locator. split; [reflexivity|].
    intros env. unfold update. simpl. rewrite !dom_insert_L.
    destruct (rust.unwrap_or (as_bool args flags_VERBOSE) false);
      rewrite ?dom_insert_L; apply set_eq; intros k; set_unfold; intuition.
  - by intros e ->.
  - by intros library e -> ->.
Qed.

(** The argument list [supervise] builds, for a builder that keeps the
    arguments it is given in order. *)
Lemma supervise_parameters (built : Builder → list string) s execution :
  (∀ p, built (Builder_new p) = []) →
  (∀ b a, built (add_argument b a) = built b ++ [a]) →
  (∀ b l, built (add_arguments b l) = built b ++ l) →
  (∀ b env, built (set_environment b env) = built b) →
  built (supervise s execution)
  = [executor_ s; wr_DESTINATION; session_locator_ s]
    ++ (if verbose_ s then [wr_VERBOSE] else [])
    ++ [wr_EXECUTE; executable execution; wr_COMMAND]
    ++ arguments execution.
Proof.
  intros Hnew Hadd Hall Henv. unfold supervise.
  rewrite Henv, Hall, !Hadd.
  destruct (verbose_ s); rewrite ?Hadd, Hnew; simpl;
    by rewrite <- ?app_assoc.
Qed.

(** X5: for a builder that keeps the arguments it is given in order,
    the command line [supervise] builds starts with the executor, the
    destination flag and the session locator and ends with the command
    flag followed by the arguments of the execution, unchanged; two
    executions that give the same command line have the same executable
    and the same arguments. *)
Theorem supervise_carries_command (built : Builder → list string) s :
  (∀ p, built (Builder_new p) = []) →
  (∀ b a, built (add_argument b a) = built b ++ [a]) →
  (∀ b l, built (add_arguments b l) = built b ++ l) →
  (∀ b env, built (set_environment b env) = built b) →
  (∀ execution,
     ∃ options,
       built (supervise s execution)
       = [executor_ s; wr_DESTINATION; session_locator_ s] ++ options
         ++ [wr_EXECUTE; executable execution; wr_COMMAND]
         ++ arguments execution
       ∧ options = if verbose_ s then [wr_VERBOSE] else [])
  ∧ (∀ e1 e2,
       built (supervise s e1) = built (supervise s e2) →
       executable e1 = executable e2 ∧ arguments e1 = arguments e2).
Proof.
  intros Hnew Hadd Hall Henv. split.
  - intros execution. eexists. split; [|reflexivity].
    by apply supervise_parameters.
  - intros e1 e2.
    rewrite !(supervise_parameters built s _ Hnew Hadd Hall Henv).
    intros Hsame. apply app_inv_head in Hsame.
    apply app_inv_head in Hsame. by injection Hsame as -> ->.
Qed.

End creation_facts.

Lemma supervise_carries_command_witness :
  (∀ b a, @parameters (@add_argument list_builder b a) = parameters b ++ [a])
  ∧ parameters
      (@supervise bear_environments bear_session_base bear_wrapper_flags
         list_builder verbose_session gcc_execution)
    = ["/usr/lib/bear/wrapper"; "--destination"; "dns:///localhost:4711";
       "--verbose"; "--execute"; "/usr/bin/gcc"; "--"; "gcc"; "-c"; "a.c"].
Proof.
  assert (∀ b a, @parameters (@add_argument list_builder b a)
                 = parameters b ++ [a]) as Hadd by (intros; reflexivity).
  split; [exact Hadd|].
  destruct (@supervise_carries_command bear_environments bear_session_base
              bear_wrapper_flags list_builder parameters verbose_session
              (fun _ => eq_refl) Hadd (fun _ _ => eq_refl) (fun _ _ => eq_refl))
    as [Hshape _].
  destruct (Hshape gcc_execution) as (options & -> & ->). reflexivity.
Defined.

End ic_session_facts.

(** ** More on the citnames application *)

Module cs_application_facts.
Import fs cs.

Section more_application_facts.
Context `{Compare} `{Frontend} `{Recognizer} `{!Storage}.

(** A path made absolute against an absolute root is left alone by
    [abspath]. *)
Lemma abspath_settled root other p :
  is_absolute root = true → abspath other (abspath root p) = abspath root p.
Proof.
  intros Hroot. unfold abspath at 1.
  by rewrite (cs_facts.abspath_is_absolute root p Hroot).
Qed.

Lemma to_abspath_twice paths root other :
  is_absolute root = true →
  to_abspath (to_abspath paths root) other = to_abspath paths root.
Proof.
  intros Hroot. rewrite !cs_facts.to_abspath_fmap, <- list_fmap_compose.
  apply list_fmap_ext. intros _ p _. simpl. by apply abspath_settled.
Qed.

(** X6: [to_abspath] keeps the number and the order of the paths, and
    against an absolute root its result is settled: making it absolute
    again, against any directory, changes nothing. *)
Theorem to_abspath_settles paths root other :
  is_absolute root = true →
  length (to_abspath paths root) = length paths
  ∧ to_abspath (to_abspath paths root) other = to_abspath paths root.
Proof.
  intros Hroot. split.
  - rewrite cs_facts.to_abspath_fmap. apply length_fmap.
  - rewrite !cs_facts.to_abspath_fmap, <- list_fmap_compose.
    apply list_fmap_ext. intros _ p _. simpl. by apply abspath_settled.
Qed.

(** X7: when the working directory, if it is known, is absolute,
    updating a content filter a second time changes nothing. *)
Theorem update_content_settles content run_checks w :
  match get_cwd w with
  | Ok root => is_absolute root = true
  | Err _ => True
  end →
  update_content (update_content content run_checks w) run_checks w
  = update_content content run_checks w.
Proof.
  unfold update_content. destruct run_checks; [|done].
  destruct (get_cwd w) as [root|e]; [|done].
  intros Hroot. simpl. f_equal; by apply to_abspath_twice.
Qed.

(** X8: the --run-checks flag can only switch the check for existing
    sources on: the result of [into_configuration] checks them when the
    loaded configuration does, or when the flag is given as true and the
    working directory is known. *)
Theorem run_checks_only_switches_on
    args (environment : gmap string string) w config :
  loaded_configuration args w = Ok config →
  ∃ result,
    into_configuration args environment w = Ok result
    ∧ include_only_existing_source (content (output result))
      = include_only_existing_source (content (output config))
        || match as_bool args FLAG_RUN_CHECKS with
           | Ok true => rust.is_ok (get_cwd w)
           | _ => false
           end.
Proof.
  intros Hloaded. unfold into_configuration. rewrite Hloaded. simpl.
  eexists. split; [reflexivity|]. simpl.
  unfold effective_run_checks, update_content.
  destruct (as_bool args FLAG_RUN_CHECKS) as [[|]|e]; simpl.
  - destruct (get_cwd w); simpl; [by rewrite orb_true_r|by rewrite orb_false_r].
  - by rewrite orb_false_r.
  - destruct (include_only_existing_source (content (output config))) eqn:Hcfg;
      simpl; [|done].
    by destruct (get_cwd w).
Qed.

(** Compilers that all compare equal to a wrapper add nothing. *)
Lemma update_compilers_to_recognize_known wrappers compilers :
  Forall (fun compiler =>
            existsb (fun wrapper => path_eqb (executable wrapper) compiler)
              wrappers = true) compilers →
  update_compilers_to_recognize wrappers compilers = wrappers.
Proof.
  induction 1 as [|compiler compilers Hknown _ IH]; [done|].
  by rewrite cs_facts.update_compilers_to_recognize_cons, Hknown.
Qed.

(** X9: compilers that are all recognized already leave the list of
    wrappers as it is; hence, path equality being reflexive, extending a
    list by the same compilers a second time changes nothing. *)
Theorem update_compilers_to_recognize_settles wrappers compilers :
  (∀ p, path_eqb p p = true) →
  (Forall (fun compiler =>
             ∃ wrapper, wrapper ∈ wrappers
                        ∧ path_eqb (executable wrapper) compiler = true)
     compilers →
   update_compilers_to_recognize wrappers compilers = wrappers)
  ∧ update_compilers_to_recognize
      (update_compilers_to_recognize wrappers compilers) compilers
    = update_compilers_to_recognize wrappers compilers.
Proof.
  intros Hrefl.
  assert (∀ known,
            Forall (fun compiler =>
                      ∃ wrapper, wrapper ∈ known
                                 ∧ path_eqb (executable wrapper) compiler = true)
              compilers →
            update_compilers_to_recognize known compilers = known) as Hknown.
  { intros known Hall. apply update_compilers_to_recognize_known.
    eapply Forall_impl; [exact Hall|]. intros compiler (wrapper & Hin & Heq).
    apply existsb_exists. exists wrapper. split; [|done].
    by apply list_elem_of_In. }
  split; [apply Hknown|].
  destruct (cs_facts.update_compilers_to_recognize_spec wrappers compilers Hrefl)
    as (added & -> & _ & Hall & _).
  by apply Hknown.
Qed.

(** X10: of the environment only CC, CXX and FC matter to
    [into_configuration]: setting or unsetting another variable leaves its
    result as it is. *)
Theorem into_configuration_reads_three_variables
    args (environment : gmap string string) w variable value :
  variable ≠ "CC" → variable ≠ "CXX" → variable ≠ "FC" →
  into_configuration args (<[variable := value]> environment) w
  = into_configuration args environment w
  ∧ into_configuration args (delete variable environment) w
    = into_configuration args environment w.
Proof.
  intros Hcc Hcxx Hfc. unfold into_configuration, compilers.
  by rewrite !lookup_insert_ne, !lookup_delete_ne.
Qed.

(** X11: [into_configuration] fails only when the flags name a
    configuration file that the serializer cannot load, and then with the
    serializer's error; without a usable --config flag it succeeds, from
    the default configuration. *)
Theorem into_configuration_fails_on_configuration_file_only
    args (environment : gmap string string) w :
  (∀ e, as_string args FLAG_CONFIG = Err e →
        loaded_configuration args w = Ok Configuration_default
        ∧ rust.is_ok (into_configuration args environment w) = true)
  ∧ (∀ candidate e,
       as_string args FLAG_CONFIG = Ok candidate →
       (into_configuration args environment w = Err e
        ↔ ConfigurationSerializer_from_json candidate w = Err e)).
Proof.
  unfold into_configuration, loaded_configuration. split.
  - by intros e ->.
  - intros candidate e ->. simpl.
    destruct (ConfigurationSerializer_from_json candidate w); simpl;
      split; congruence.
Qed.

(** X12: [into_configuration] leaves the output format and the
    excluded compilers of the loaded configuration as they are, and the
    content filter keeps the number of its included and excluded paths. *)
Theorem into_configuration_keeps_format_and_exclusions
    args (environment : gmap string string) w config :
  loaded_configuration args w = Ok config →
  ∃ result,
    into_configuration args environment w = Ok result
    ∧ format (output result) = format (output config)
    ∧ compilers_to_exclude (compilation result)
      = compilers_to_exclude (compilation config)
    ∧ length (paths_to_include (content (output result)))
      = length (paths_to_include (content (output config)))
    ∧ length (paths_to_exclude (content (output result)))
      = length (paths_to_exclude (content (output config))).
Proof.
  intros Hloaded. unfold into_configuration. rewrite Hloaded. simpl.
  eexists. split; [reflexivity|]. simpl. unfold update_content.
  destruct (effective_run_checks args config); [|done].
  destruct (get_cwd w); [|done]. simpl.
  by rewrite !cs_facts.to_abspath_fmap, !length_fmap.
Qed.

(** X13: [into_arguments] succeeds exactly when the input and the
    output flags have a value and the input file exists; it returns the two
    paths as the flags have them, and appends only when the append flag is
    given as true and the output file exists. *)
Theorem into_arguments_succeeds_iff args w arguments :
  into_arguments args w = Ok arguments
  ↔ ∃ input output,
      as_string args FLAG_INPUT = Ok input
      ∧ as_string args FLAG_OUTPUT = Ok output
      ∧ is_exists input w = true
      ∧ arguments
        = {| Arguments.input := input;
             Arguments.output := output;
             Arguments.append :=
               match as_bool args FLAG_APPEND with
               | Ok given => given && is_exists output w
               | Err _ => false
               end |}.
Proof.
  unfold into_arguments.
  destruct (as_string args FLAG_INPUT) as [input|e1]; simpl.
  - destruct (as_string args FLAG_OUTPUT) as [output|e2]; simpl.
    + destruct (is_exists input w) eqn:Hinput; simpl.
      * split.
        -- intros [= <-]. exists input, output.
           by destruct (as_bool args FLAG_APPEND).
        -- intros (? & ? & [= <-] & [= <-] & _ & ->).
           by destruct (as_bool args FLAG_APPEND).
      * split; [done|]. intros (? & ? & [= <-] & _ & ? & _). congruence.
    + split; [done|]. by intros (? & ? & _ & ? & _).
  - split; [done|]. by intros (? & ? & ? & _).
Qed.

(** A turn of the loop, from any count and any output list. *)
Lemma transform_step_from build count output it :
  transform_step build (count, output) it
  = (count + fst (transform_step build (0, []) it),
     output ++ snd (transform_step build (0, []) it)).
Proof.
  unfold transform_step.
  destruct (rust.and_then (recognize build) it) as [semantic|];
    [destruct (as_compiler_call semantic)|]; simpl;
    by rewrite ?Nat.add_0_r, ?app_nil_r.
Qed.

(** The loop of [transform] from any count and any output list. *)
Lemma fold_transform_step build events count output :
  fold_left (transform_step build) events (count, output)
  = (count + fst (transform build events []),
     output ++ snd (transform build events [])).
Proof.
  unfold transform. revert count output.
  induction events as [|it events IH]; intros count output; cbn [fold_left].
  - simpl. by rewrite Nat.add_0_r, app_nil_r.
  - rewrite (transform_step_from build count output it).
    destruct (transform_step build (0, []) it) as [n added]. simpl.
    rewrite IH, (IH n added). simpl.
    f_equal; [lia|by rewrite app_assoc].
Qed.

Lemma transform_from_empty build events output :
  transform build events output
  = (length (snd (transform build events [])),
     output ++ snd (transform build events [])).
Proof.
  unfold transform at 1. rewrite fold_transform_step. f_equal.
  destruct (cs_facts.fold_transform_step_extends build events 0 [])
    as [added Hadded].
  unfold transform. by rewrite Hadded.
Qed.

(** X14: the entries [transform] adds do not depend on the list it
    extends, and its count is their number. *)
Theorem transform_counts_what_it_adds build events output :
  transform build events output
  = (length (snd (transform build events [])),
     output ++ snd (transform build events []))
  ∧ fst (transform build events output)
    = length (snd (transform build events output)) - length output.
Proof.
  split; [apply transform_from_empty|].
  rewrite (transform_from_empty build events output).
  cbn [fst snd]. rewrite length_app. lia.
Qed.

(** X15: [transform] over two logs in a row is [transform] over the
    first, then over the second on the list the first left; the counts add
    up. *)
Theorem transform_app build first second output :
  transform build (first ++ second) output
  = (fst (transform build first output)
     + fst (transform build second (snd (transform build first output))),
     snd (transform build second (snd (transform build first output)))).
Proof.
  unfold transform at 1. rewrite fold_left_app.
  fold (transform build first output).
  destruct (transform build first output) as [count entries] eqn:Hfirst.
  rewrite fold_transform_step. simpl.
  rewrite (transform_from_empty build second entries). simpl. f_equal.
  by rewrite (transform_from_empty build second []).
Qed.

(** X19: the list [transform] returns is the list it was given
    followed by the entries of the records, record after record in the
    order of the log; a record that is read and recognized but is no
    compiler call adds nothing. *)
Theorem transform_keeps_log_order build events output :
  snd (transform build events output)
  = output ++ concat (record_entries build <$> events)
  ∧ ∀ event semantic,
      recognize build event = Ok semantic →
      as_compiler_call semantic = None →
      record_entries build (Ok event) = [].
Proof.
  split.
  - rewrite (transform_from_empty build events output).
    cbn [snd]. f_equal.
    induction events as [|it events IH]; [done|].
    unfold transform at 1. cbn [fold_left].
    assert (snd (transform_step build (0, []) it) = record_entries build it)
      as Hfirst.
    { unfold transform_step, record_entries.
      destruct (rust.and_then (recognize build) it) as [semantic|];
        [by destruct (as_compiler_call semantic)|done]. }
    destruct (transform_step build (0, []) it) as [n added].
    rewrite fold_transform_step. simpl in Hfirst |- *.
    by rewrite Hfirst, IH.
  - intros event semantic Hrecognized Hother. unfold record_entries. simpl.
    by rewrite Hrecognized, Hother.
Qed.

(** X16: in append mode, when the prior database cannot be read, the
    run returns that error and writes nothing: the world is as it was. *)
Theorem execute_failed_merge_writes_nothing c w commands e :
  Arguments.append (arguments_ c) = true →
  EventsDatabaseReader_from (Arguments.input (arguments_ c)) w = Ok commands →
  fst (from_json (format (output (configuration_ c)))
         (content (output (configuration_ c)))
         (Arguments.output (arguments_ c))
         (snd (transform (compilation (configuration_ c)) commands [])) w)
  = Err e →
  execute c w = (Err e, w).
Proof.
  intros Happend Hread Hmerge.
  rewrite (cs_facts.execute_after_reading c w commands Hread). simpl.
  by rewrite Happend, Hmerge.
Qed.

(** X18: a [Command] that [Application::command] made has an input
    file that exists and the paths the flags gave; it appends only to an
    output file that exists; and its configuration is the one
    [into_configuration] returned. *)
Theorem command_is_validated args (environment : gmap string string) w c :
  command args environment w = Ok c →
  as_string args FLAG_INPUT = Ok (Arguments.input (arguments_ c))
  ∧ as_string args FLAG_OUTPUT = Ok (Arguments.output (arguments_ c))
  ∧ is_exists (Arguments.input (arguments_ c)) w = true
  ∧ (Arguments.append (arguments_ c) = true →
     is_exists (Arguments.output (arguments_ c)) w = true)
  ∧ into_configuration args environment w = Ok (configuration_ c).
Proof.
  unfold command.
  destruct (into_arguments args w) as [arguments|] eqn:Harguments; [|done].
  destruct (into_configuration args environment w) as [configuration|];
    [|done].
  simpl. intros [= <-]. simpl.
  unfold into_arguments in Harguments.
  destruct (as_string args FLAG_INPUT) as [input|]; [|done].
  destruct (as_string args FLAG_OUTPUT) as [output|]; [|done].
  simpl in Harguments.
  destruct (is_exists input w) eqn:Hexists; [|done].
  simpl in Harguments. injection Harguments as <-. simpl.
  repeat split; try done.
  by intros [_ ?]%andb_prop.
Qed.

End more_application_facts.

(** X17: without append, [execute] does not use [from_json]: with
    another [from_json] in its place the run is the same. *)
Theorem execute_overwrite_ignores_prior_database
    `{Host} `{Recognizer} reader merge other_merge write c w :
  Arguments.append (arguments_ c) = false →
  @execute _ _ (Build_Storage _ _ reader merge write) c w
  = @execute _ _ (Build_Storage _ _ reader other_merge write) c w.
Proof.
  intros Hoverwrite. unfold execute. simpl. rewrite Hoverwrite.
  by destruct (reader _ w).
Qed.

Import spec sample sample_worlds.

Lemma to_abspath_settles_witness :
  is_absolute "/proj" = true
  ∧ to_abspath (to_abspath ["src"; "/opt/include"] "/proj") "/elsewhere"
    = ["/proj/src"; "/opt/include"].
Proof.
  split; [reflexivity|].
  destruct (to_abspath_settles ["src"; "/opt/include"] "/proj" "/elsewhere"
              eq_refl) as [_ ->].
  reflexivity.
Defined.

Lemma update_content_settles_witness :
  is_absolute "/proj" = true
  ∧ @update_content host (@update_content host (content (output gcc_only))
                            true configured_world) true configured_world
    = {| include_only_existing_source := true;
         paths_to_include := ["/proj/src"];
         paths_to_exclude := ["/proj/third_party"] |}.
Proof.
  split; [reflexivity|].
  rewrite (@update_content_settles host (content (output gcc_only)) true
             configured_world eq_refl).
  reflexivity.
Defined.

Lemma run_checks_only_switches_on_witness :
  @loaded_configuration host frontend citnames_flags lost_world = Ok gcc_only
  ∧ ∃ result,
      @into_configuration compare host frontend citnames_flags
        build_environment lost_world = Ok result
      ∧ include_only_existing_source (content (output result)) = false.
Proof.
  assert (@loaded_configuration host frontend citnames_flags lost_world
          = Ok gcc_only) as Hloaded by (vm_compute; reflexivity).
  split; [exact Hloaded|].
  destruct (@run_checks_only_switches_on compare host frontend citnames_flags
              build_environment lost_world gcc_only Hloaded)
    as (result & Hresult & Hflag).
  exists result. split; [exact Hresult|]. rewrite Hflag. reflexivity.
Defined.

Lemma update_compilers_to_recognize_settles_witness :
  (∀ p, @path_eqb compare p p = true)
  ∧ @update_compilers_to_recognize compare
      (@update_compilers_to_recognize compare
         (compilers_to_recognize (compilation gcc_only)) ["gcc"; "g++"])
      ["gcc"; "g++"]
    = compilers_to_recognize (compilation gcc_only) ++ [env_wrapper "g++"].
Proof.
  assert (∀ p, @path_eqb compare p p = true) as Hrefl
    by apply String.eqb_refl.
  split; [exact Hrefl|].
  destruct (@update_compilers_to_recognize_settles compare
              (compilers_to_recognize (compilation gcc_only)) ["gcc"; "g++"]
              Hrefl) as [_ ->].
  reflexivity.
Defined.

Lemma into_configuration_reads_three_variables_witness :
  "HOME" ≠ "CC" ∧ "HOME" ≠ "CXX" ∧ "HOME" ≠ "FC"
  ∧ @into_configuration compare host frontend citnames_flags
      build_environment configured_world
    = @into_configuration compare host frontend citnames_flags
        (delete "HOME" build_environment) configured_world.
Proof.
  repeat (split; [discriminate|]).
  destruct (@into_configuration_reads_three_variables compare host frontend
              citnames_flags build_environment configured_world "HOME" "/root")
    as [_ ->]; try discriminate.
  reflexivity.
Defined.

Lemma into_configuration_keeps_format_and_exclusions_witness :
  @loaded_configuration host frontend citnames_flags configured_world
  = Ok gcc_only
  ∧ ∃ result,
      @into_configuration compare host frontend citnames_flags
        build_environment configured_world = Ok result
      ∧ format (output result) = format (output gcc_only)
      ∧ compilers_to_exclude (compilation result) = [].
Proof.
  assert (@loaded_configuration host frontend citnames_flags configured_world
          = Ok gcc_only) as Hloaded by (vm_compute; reflexivity).
  split; [exact Hloaded|].
  destruct (@into_configuration_keeps_format_and_exclusions compare host
              frontend citnames_flags build_environment configured_world
              gcc_only Hloaded)
    as (result & Hresult & Hformat & Hexcluded & _).
  exists result. by rewrite Hformat, Hexcluded.
Defined.

Lemma execute_failed_merge_writes_nothing_witness :
  Arguments.append (arguments_ append_command) = true
  ∧ @execute host recognizer (@storage recognizer codec)
      append_command broken_world
    = (Err "malformed database", broken_world).
Proof.
  split; [reflexivity|].
  eapply (@execute_failed_merge_writes_nothing host recognizer
            (@storage recognizer codec) append_command broken_world).
  - reflexivity.
  - vm_compute. reflexivity.
  - vm_compute. reflexivity.
Defined.

Lemma command_is_validated_witness :
  ∃ c,
    @command compare host frontend citnames_flags build_environment ready_world
    = Ok c
    ∧ Arguments.input (arguments_ c) = "events.db"
    ∧ @is_exists host (Arguments.input (arguments_ c)) ready_world = true
    ∧ Arguments.append (arguments_ c) = false.
Proof.
  eexists. split; [vm_compute; reflexivity|].
  destruct (@command_is_validated compare host frontend citnames_flags
              build_environment ready_world _ eq_refl)
    as (_ & _ & Hexists & _).
  split; [reflexivity|]. split; [exact Hexists|reflexivity].
Defined.

Lemma execute_overwrite_ignores_prior_database_witness :
  Arguments.append (arguments_ overwrite_command) = false
  ∧ @execute host recognizer
      (@Build_Storage host recognizer (@events_from recognizer codec)
         no_from_json (@database_to_json recognizer codec))
      overwrite_command fresh_world
    = @execute host recognizer (@storage recognizer codec)
        overwrite_command fresh_world.
Proof.
  split; [reflexivity|].
  apply (@execute_overwrite_ignores_prior_database host recognizer
           (@events_from recognizer codec) no_from_json
           (@database_from_json recognizer codec)
           (@database_to_json recognizer codec) overwrite_command fresh_world).
  reflexivity.
Defined.

End cs_application_facts.
